(** * Simple audio editor: the offline audio-processing pipeline

    A shallow embedding of [audioProcessing.ts]: ease curves, the crop /
    volume / fade renderer ([processAudio]), waveform peak extraction
    ([extractWaveformPeaks]), the WAV writer ([audioBufferToWav]) and the
    MIME negotiation of the Opus export ([pickOpusMimeType]); then the rest
    of the module ([exportAudio], [formatTime]) and its callers in the
    editor: the controls that build the settings and [handleDownload].

    Conventions.
    - A JavaScript [number] is a real number: arithmetic is exact, and the
      rounding of binary64 / Float32Array storage is outside the model, as are
      NaN and the infinities.
    - Integers that the code obtains with [Math.floor], array lengths and
      loop counters are [Z] or [nat].
    - The Web Audio objects the renderer drives (the gain parameter's
      automation timeline, the buffer source, the offline context) are
      modelled after the Web Audio API recommendation; the calls the source
      makes on them are kept one for one. *)

From Stdlib Require Import Reals Lra Lia ZArith List String Ascii Bool.
From Stdlib Require Import DecimalString.
Import ListNotations.
Local Open Scope R_scope.

(** ** Numbers *)

(** [Math.floor]. *)
Definition floor (x : R) : Z := Int_part x.

(** Truncation towards zero, the first step of the typed-array integer
    conversions (ToInt16 and friends). *)
Definition trunc (x : R) : Z :=
  if Rle_dec 0 x then Int_part x else (- Int_part (- x))%Z.

(** ** Failures *)

(** Exceptions raised by the platform objects. *)
Inductive PlatformError : Type :=
  | RangeError
  | NotSupportedError
  | InvalidStateError.

(** [EmptyRegion] is the processor's own [Error("Crop region is empty")]. *)
Inductive Failure : Type :=
  | EmptyRegion
  | Platform (e : PlatformError).

Inductive result (A : Type) : Type :=
  | Ok (a : A)
  | Err (e : Failure).
Arguments Ok {A} a.
Arguments Err {A} e.

Definition bind {A B : Type} (m : result A) (k : A -> result B) : result B :=
  match m with
  | Ok a => k a
  | Err e => Err e
  end.

Notation "x <- m ;; k" := (bind m (fun x => k))
  (at level 61, m at next level, right associativity).

(** ** Settings *)

Inductive EaseCurve : Type :=
  | linear
  | exponential
  | logarithmic
  | sCurve.

Record Fade : Type := mkFade {
  enabled : bool;
  duration : R;          (* seconds *)
  curve : EaseCurve
}.

Record AudioEditSettings : Type := mkSettings {
  cropStart : R;         (* seconds *)
  cropEnd : R;           (* seconds *)
  volume : R;            (* 0-2 multiplier *)
  fadeIn : Fade;
  fadeOut : Fade
}.

Definition getDefaultSettings (dur : R) : AudioEditSettings :=
  {| cropStart := 0;
     cropEnd := dur;
     volume := 1;
     fadeIn := mkFade false (Rmin 1 (dur * 0.1)) linear;
     fadeOut := mkFade false (Rmin 1 (dur * 0.1)) linear |}.

(** Apply an ease curve to a linear 0 -> 1 progress value. *)
Definition applyEaseCurve (t : R) (c : EaseCurve) : R :=
  match c with
  | exponential => t * t
  | logarithmic => sqrt t
  | sCurve => t * t * (3 - 2 * t)
  | linear => t
  end.

(** ** Audio buffers *)

(** A platform [AudioBuffer] has at least one channel, hence the first
    channel is a field of its own; [length] is the frame count of the
    buffer. *)
Record AudioBuffer : Type := mkBuffer {
  sampleRate : Z;                      (* Hz *)
  firstChannel : list R;
  otherChannels : list (list R)
}.

Definition channelData (b : AudioBuffer) : list (list R) :=
  firstChannel b :: otherChannels b.

Definition numberOfChannels (b : AudioBuffer) : nat :=
  List.length (channelData b).

Definition bufferLength (b : AudioBuffer) : nat :=
  List.length (firstChannel b).

(** [buffer.getChannelData(ch)[i]]; reading past the end gives
    [undefined], which every consumer below turns into 0. *)
Definition getChannelData (b : AudioBuffer) (ch i : nat) : R :=
  nth i (nth ch (channelData b) []) 0.


(** ** The gain parameter: an AudioParam automation timeline

    [gainNode.gain] is one AudioParam.  Every scheduling call adds one event
    to its timeline, which is kept ordered by time; the parameter's value at
    a time is computed from the events around that time. *)

Inductive AutomationEvent : Type :=
  | SetValue (value time : R)
  | LinearRamp (value endTime : R)
  | ExponentialRamp (value endTime : R)
  | SetValueCurve (values : list R) (startTime dur : R).

Definition Timeline : Type := list AutomationEvent.

Definition eventTime (e : AutomationEvent) : R :=
  match e with
  | SetValue _ t => t
  | LinearRamp _ t => t
  | ExponentialRamp _ t => t
  | SetValueCurve _ t _ => t
  end.

(** An event added at a time where there are already events is placed after
    them, and before the events whose times are later. *)
Fixpoint insertEvent (e : AutomationEvent) (tl : Timeline) : Timeline :=
  match tl with
  | [] => [e]
  | x :: rest =>
      if Rlt_dec (eventTime e) (eventTime x) then e :: x :: rest
      else x :: insertEvent e rest
  end.

(** [t] lies in the interval [[T, T + D)] of a value curve. *)
Definition insideCurve (t : R) (e : AutomationEvent) : bool :=
  match e with
  | SetValueCurve _ T D =>
      if Rle_dec T t then (if Rlt_dec t (T + D) then true else false)
      else false
  | _ => false
  end.

(** The event's time is strictly between [T] and [T + D]. *)
Definition strictlyWithin (T D : R) (e : AutomationEvent) : bool :=
  if Rlt_dec T (eventTime e)
  then (if Rlt_dec (eventTime e) (T + D) then true else false)
  else false.

Definition negativeTime (t : R) : bool :=
  if Rlt_dec t 0 then true else false.

Definition setValueAtTime (value startTime : R) (tl : Timeline)
  : result Timeline :=
  if negativeTime startTime then Err (Platform RangeError)
  else if existsb (insideCurve startTime) tl
       then Err (Platform NotSupportedError)
  else Ok (insertEvent (SetValue value startTime) tl).

Definition linearRampToValueAtTime (value endTime : R) (tl : Timeline)
  : result Timeline :=
  if negativeTime endTime then Err (Platform RangeError)
  else if existsb (insideCurve endTime) tl
       then Err (Platform NotSupportedError)
  else Ok (insertEvent (LinearRamp value endTime) tl).

(** An exponential ramp cannot target 0. *)
Definition exponentialRampToValueAtTime (value endTime : R) (tl : Timeline)
  : result Timeline :=
  if Req_dec_T value 0 then Err (Platform RangeError)
  else if negativeTime endTime then Err (Platform RangeError)
  else if existsb (insideCurve endTime) tl
       then Err (Platform NotSupportedError)
  else Ok (insertEvent (ExponentialRamp value endTime) tl).

(** A value curve may start exactly at the time of another event, but no
    event may lie strictly inside its interval, and it may not start inside
    another curve. *)
Definition setValueCurveAtTime (values : list R) (startTime dur : R)
  (tl : Timeline) : result Timeline :=
  if (List.length values <? 2)%nat then Err (Platform InvalidStateError)
  else if negativeTime startTime then Err (Platform RangeError)
  else if Rle_dec dur 0 then Err (Platform RangeError)
  else if existsb (insideCurve startTime) tl
          || existsb (strictlyWithin startTime dur) tl
       then Err (Platform NotSupportedError)
  else Ok (insertEvent (SetValueCurve values startTime dur) tl).

(** Value of a curve of [N] points over [[T, T + D)]: linear interpolation
    between the points [k] and [k + 1], [k = floor ((N - 1) / D * (t - T))]. *)
Definition curveValue (values : list R) (T D t : R) : R :=
  let pos := INR (List.length values - 1) / D * (t - T) in
  let k := Z.to_nat (floor pos) in
  nth k values 0 + (nth (S k) values 0 - nth k values 0) * (pos - INR k).

(** Value at time [t] of a timeline whose events not yet consumed are [tl];
    [(v0, t0)] are the value and the time the last consumed event ended
    with.  A ramp reaches back to the end of the event before it; any other
    event leaves the value constant until its own time. *)
Fixpoint valueFrom (v0 t0 : R) (tl : Timeline) (t : R) : R :=
  match tl with
  | [] => v0
  | e :: rest =>
      if Rlt_dec t (eventTime e) then
        match e with
        | LinearRamp v1 t1 => v0 + (v1 - v0) * ((t - t0) / (t1 - t0))
        | ExponentialRamp v1 t1 =>
            if Rlt_dec 0 (v0 * v1)
            then v0 * Rpower (v1 / v0) ((t - t0) / (t1 - t0))
            else v0
        | _ => v0
        end
      else
        match e with
        | SetValue v t1 => valueFrom v t1 rest t
        | LinearRamp v t1 => valueFrom v t1 rest t
        | ExponentialRamp v t1 => valueFrom v t1 rest t
        | SetValueCurve values T D =>
            if Rlt_dec t (T + D) then curveValue values T D t
            else valueFrom (last values 0) (T + D) rest t
        end
  end.

(** The gain parameter starts from its default value 1. *)
Definition valueAtTime (tl : Timeline) (t : R) : R := valueFrom 1 0 tl t.

(** ** The renderer: crop, volume, fade in / out *)

(** The fade is applied: [fade.enabled && fade.duration > 0]. *)
Definition fadeActive (f : Fade) : bool :=
  enabled f && (if Rlt_dec 0 (duration f) then true else false).

Definition steps : nat := 100.

(** The sampled curve of a logarithmic or sCurve fade in:
    [curveValues[i] = applyEaseCurve(i / (steps - 1), curve) * volume]. *)
Definition fadeInCurveValues (c : EaseCurve) (vol : R) : list R :=
  map (fun i => applyEaseCurve (INR i / INR (steps - 1)) c * vol)
      (seq 0 steps).

(** Its descending mirror for a fade out:
    [curveValues[i] = applyEaseCurve(1 - i / (steps - 1), curve) * volume]. *)
Definition fadeOutCurveValues (c : EaseCurve) (vol : R) : list R :=
  map (fun i => applyEaseCurve (1 - INR i / INR (steps - 1)) c * vol)
      (seq 0 steps).

(** The "Apply fade in" block; [total] is [croppedLength / sampleRate]. *)
Definition applyFadeIn (f : Fade) (vol total : R) (gain : Timeline)
  : result Timeline :=
  if fadeActive f then
    let fadeDuration := Rmin (duration f) total in
    gain <- setValueAtTime 0 0 gain ;;
    match curve f with
    | exponential =>
        gain <- setValueAtTime 0.001 0 gain ;;
        exponentialRampToValueAtTime vol fadeDuration gain
    | logarithmic | sCurve =>
        setValueCurveAtTime (fadeInCurveValues (curve f) vol) 0 fadeDuration
                            gain
    | linear => linearRampToValueAtTime vol fadeDuration gain
    end
  else Ok gain.

(** The "Apply fade out" block. *)
Definition applyFadeOut (f : Fade) (vol total : R) (gain : Timeline)
  : result Timeline :=
  if fadeActive f then
    let totalDuration := total in
    let fadeDuration := Rmin (duration f) totalDuration in
    let fadeOutStart := totalDuration - fadeDuration in
    match curve f with
    | exponential =>
        gain <- setValueAtTime vol fadeOutStart gain ;;
        exponentialRampToValueAtTime 0.001 totalDuration gain
    | logarithmic | sCurve =>
        setValueCurveAtTime (fadeOutCurveValues (curve f) vol)
                            fadeOutStart fadeDuration gain
    | linear =>
        gain <- setValueAtTime vol fadeOutStart gain ;;
        linearRampToValueAtTime 0 totalDuration gain
    end
  else Ok gain.

Definition startSample (b : AudioBuffer) (s : AudioEditSettings) : Z :=
  floor (cropStart s * IZR (sampleRate b)).

Definition endSample (b : AudioBuffer) (s : AudioEditSettings) : Z :=
  floor (cropEnd s * IZR (sampleRate b)).

Definition croppedLength (b : AudioBuffer) (s : AudioEditSettings) : Z :=
  (endSample b s - startSample b s)%Z.

(** The whole automation of the gain node, in call order. *)
Definition scheduleGain (b : AudioBuffer) (s : AudioEditSettings)
  : result Timeline :=
  let total := IZR (croppedLength b s) / IZR (sampleRate b) in
  gain <- setValueAtTime (volume s) 0 [] ;;
  gain <- applyFadeIn (fadeIn s) (volume s) total gain ;;
  applyFadeOut (fadeOut s) (volume s) total gain.

(** [source.start(when, offset, duration)]: negative arguments are refused. *)
Record Playback : Type := mkPlayback {
  playOffset : R;        (* seconds into the buffer *)
  playDuration : R       (* seconds *)
}.

Definition start (when offset dur : R) : result Playback :=
  if negativeTime when then Err (Platform RangeError)
  else if negativeTime offset then Err (Platform RangeError)
  else if negativeTime dur then Err (Platform RangeError)
  else Ok (mkPlayback offset dur).

Section Rendering.

(** What the buffer source plays at a playhead position that is not an
    exact sample frame is left to the user agent. *)
Variable interpolate : list R -> R -> R.

Definition playbackSignal (data : list R) (pos : R) : R :=
  if Req_dec_T (IZR (floor pos)) pos
  then nth (Z.to_nat (floor pos)) data 0
  else interpolate data pos.

(** Output of the buffer source at output frame [i]: the playhead moves
    one frame per frame from [offset], until the requested duration or the
    buffer is exhausted; silence afterwards. *)
Definition sourceFrame (data : list R) (p : Playback) (rate : Z) (i : nat)
  : R :=
  let pos := playOffset p * IZR rate + INR i in
  if Rlt_dec pos ((playOffset p + playDuration p) * IZR rate) then
    if Rlt_dec pos (INR (List.length data)) then playbackSignal data pos
    else 0
  else 0.

(** [offlineCtx.startRendering()]: source -> gain -> destination, the gain
    being evaluated at every frame's time [i / sampleRate]. *)
Definition renderChannel (data : list R) (p : Playback) (gain : Timeline)
  (rate : Z) (frames : nat) : list R :=
  map (fun i => sourceFrame data p rate i
                * valueAtTime gain (INR i / IZR rate))
      (seq 0 frames).

Definition startRendering (b : AudioBuffer) (p : Playback) (gain : Timeline)
  (frames : nat) : AudioBuffer :=
  {| sampleRate := sampleRate b;
     firstChannel := renderChannel (firstChannel b) p gain (sampleRate b)
                                   frames;
     otherChannels :=
       map (fun data => renderChannel data p gain (sampleRate b) frames)
           (otherChannels b) |}.

(** Process audio using OfflineAudioContext: crop, volume, fade in/out. *)
Definition processAudio (sourceBuffer : AudioBuffer)
  (settings : AudioEditSettings) : result AudioBuffer :=
  if (croppedLength sourceBuffer settings <=? 0)%Z then Err EmptyRegion
  else
    gain <- scheduleGain sourceBuffer settings ;;
    p <- start 0 (cropStart settings)
               (cropEnd settings - cropStart settings) ;;
    Ok (startRendering sourceBuffer p gain
          (Z.to_nat (croppedLength sourceBuffer settings))).

End Rendering.

(** ** Waveform peaks *)

Record Peaks : Type := mkPeaks {
  positive : list R;
  negative : list R
}.

(** Body of the inner loop:
    [if (val > max) max = val; if (val < min) min = val]. *)
Definition peakStep (data : list R) (acc : R * R) (j : nat) : R * R :=
  let val := nth j data 0 in
  let max := if Rlt_dec (fst acc) val then val else fst acc in
  let min := if Rlt_dec val (snd acc) then val else snd acc in
  (max, min).

(** One bucket: the loop over [j] from [start] to [end], from [max = -1] and
    [min = 1]. *)
Definition bucketPeaks (data : list R) (samplesPerBucket i : nat) : R * R :=
  let start := (i * samplesPerBucket)%nat in
  let end_ := Nat.min (start + samplesPerBucket) (List.length data) in
  fold_left (peakStep data) (seq start (end_ - start)) (-1, 1).

(** Extract waveform peaks from an AudioBuffer for visualization. *)
Definition extractWaveformPeaks (buffer : AudioBuffer) (numBuckets : nat)
  : Peaks :=
  let data := firstChannel buffer in      (* Use first channel *)
  let samplesPerBucket := (List.length data / numBuckets)%nat in
  let buckets := map (bucketPeaks data samplesPerBucket) (seq 0 numBuckets) in
  {| positive := map fst buckets; negative := map snd buckets |}.

(** ** The WAV writer *)

(** A [DataView] over an [ArrayBuffer]: a list of bytes, each in 0..255. *)
Definition DataView : Type := list Z.

Fixpoint leBytes (n : nat) (v : Z) : list Z :=
  match n with
  | O => []
  | S k => (v mod 256)%Z :: leBytes k (v / 256)%Z
  end.

(** The [n] bytes of [v] modulo [2^(8n)] in the requested byte order. *)
Definition intBytes (n : nat) (v : Z) (littleEndian : bool) : list Z :=
  if littleEndian then leBytes n v else rev (leBytes n v).

(** Store [bytes] at [byteOffset]; a store that does not fit raises
    RangeError. *)
Definition setBytes (view : DataView) (byteOffset : nat) (bytes : list Z)
  : result DataView :=
  if (byteOffset + List.length bytes <=? List.length view)%nat
  then Ok (firstn byteOffset view ++ bytes
           ++ skipn (byteOffset + List.length bytes) view)
  else Err (Platform RangeError).

Definition setUint8 (view : DataView) (byteOffset : nat) (value : Z)
  : result DataView :=
  setBytes view byteOffset (intBytes 1 value true).

Definition setUint16 (view : DataView) (byteOffset : nat) (value : Z)
  (littleEndian : bool) : result DataView :=
  setBytes view byteOffset (intBytes 2 value littleEndian).

Definition setUint32 (view : DataView) (byteOffset : nat) (value : Z)
  (littleEndian : bool) : result DataView :=
  setBytes view byteOffset (intBytes 4 value littleEndian).

(** [setInt16] takes a number: it is truncated, reduced modulo [2^16] and
    stored in two's complement. *)
Definition setInt16 (view : DataView) (byteOffset : nat) (value : R)
  (littleEndian : bool) : result DataView :=
  setBytes view byteOffset (intBytes 2 (trunc value) littleEndian).

Definition charCode (c : ascii) : Z := Z.of_nat (nat_of_ascii c).

Fixpoint writeString (view : DataView) (offset : nat) (str : string)
  : result DataView :=
  match str with
  | EmptyString => Ok view
  | String c rest =>
      view <- setUint8 view offset (charCode c) ;;
      writeString view (S offset) rest
  end.

(** [for] loops that thread a state and may raise. *)
Fixpoint forEach {A S : Type} (body : S -> A -> result S) (l : list A)
  (s : S) : result S :=
  match l with
  | [] => Ok s
  | a :: rest => s <- body s a ;; forEach body rest s
  end.

Definition clampSample (sample : R) : R := Rmax (-1) (Rmin 1 sample).

(** [clamped < 0 ? clamped * 0x8000 : clamped * 0x7fff]. *)
Definition scaleSample (clamped : R) : R :=
  if Rlt_dec clamped 0 then clamped * 32768 else clamped * 32767.

(** Body of the loop over [ch]; the state is the view and [offset]. *)
Definition writeSample (buffer : AudioBuffer) (i : nat)
  (st : DataView * nat) (ch : nat) : result (DataView * nat) :=
  let sample := getChannelData buffer ch i in
  let clamped := clampSample sample in
  let int16 := scaleSample clamped in
  view <- setInt16 (fst st) (snd st) int16 true ;;
  Ok (view, (snd st + 2)%nat).

(** Body of the loop over [i]. *)
Definition writeFrame (buffer : AudioBuffer) (st : DataView * nat) (i : nat)
  : result (DataView * nat) :=
  forEach (writeSample buffer i) (seq 0 (numberOfChannels buffer)) st.

Record Blob : Type := mkBlob {
  blobBytes : list Z;
  blobType : string
}.

(** Encode an AudioBuffer to a WAV file Blob. *)
Definition audioBufferToWav (buffer : AudioBuffer) : result Blob :=
  let channels := numberOfChannels buffer in
  let rate := sampleRate buffer in
  let bitsPerSample := 16%nat in
  let bytesPerSample := (bitsPerSample / 8)%nat in
  let blockAlign := (channels * bytesPerSample)%nat in
  let dataLength := (bufferLength buffer * blockAlign)%nat in
  let headerLength := 44%nat in
  let totalLength := (headerLength + dataLength)%nat in
  let view := repeat 0%Z totalLength in
  (* WAV header *)
  view <- writeString view 0 "RIFF" ;;
  view <- setUint32 view 4 (Z.of_nat totalLength - 8) true ;;
  view <- writeString view 8 "WAVE" ;;
  view <- writeString view 12 "fmt " ;;
  view <- setUint32 view 16 16 true ;;
  view <- setUint16 view 20 1 true ;;
  view <- setUint16 view 22 (Z.of_nat channels) true ;;
  view <- setUint32 view 24 rate true ;;
  view <- setUint32 view 28 (rate * Z.of_nat blockAlign) true ;;
  view <- setUint16 view 32 (Z.of_nat blockAlign) true ;;
  view <- setUint16 view 34 (Z.of_nat bitsPerSample) true ;;
  view <- writeString view 36 "data" ;;
  view <- setUint32 view 40 (Z.of_nat dataLength) true ;;
  (* Interleave channels and write samples *)
  st <- forEach (writeFrame buffer) (seq 0 (bufferLength buffer))
                (view, 44%nat) ;;
  Ok (mkBlob (fst st) "audio/wav").

(** Reading integers back from the container, as an independent reader
    does: unsigned little-endian, and signed 16-bit two's complement. *)
Definition uintOfLeBytes (bytes : list Z) : Z :=
  fold_right (fun b acc => (b + 256 * acc)%Z) 0%Z bytes.

Definition int16OfLeBytes (bytes : list Z) : Z :=
  let u := uintOfLeBytes bytes in
  if (u <? 32768)%Z then u else (u - 65536)%Z.

(** The container layout, field by field in the order of the byte-layout
    table: "RIFF", total size - 8, "WAVE", "fmt ", 16, format 1, channel
    count, sample rate, byte rate, block align, 16 bits per sample, "data",
    data size; then the samples, frame by frame in channel order.  These two
    definitions state the layout; the writer above is compared with them. *)
Definition wavHeader (channels : nat) (rate : Z) (frames : nat) : list Z :=
  let blockAlign := (channels * 2)%nat in
  let dataLength := (frames * blockAlign)%nat in
  [82; 73; 70; 70]%Z
  ++ intBytes 4 (Z.of_nat (44 + dataLength) - 8) true
  ++ [87; 65; 86; 69]%Z
  ++ [102; 109; 116; 32]%Z
  ++ [16; 0; 0; 0]%Z
  ++ [1; 0]%Z
  ++ intBytes 2 (Z.of_nat channels) true
  ++ intBytes 4 rate true
  ++ intBytes 4 (rate * Z.of_nat blockAlign) true
  ++ intBytes 2 (Z.of_nat blockAlign) true
  ++ [16; 0]%Z
  ++ [100; 97; 116; 97]%Z
  ++ intBytes 4 (Z.of_nat dataLength) true.

Definition sampleBytes (b : AudioBuffer) (i ch : nat) : list Z :=
  intBytes 2 (trunc (scaleSample (clampSample (getChannelData b ch i)))) true.

Definition interleavedSamples (b : AudioBuffer) : list Z :=
  flat_map (fun i => flat_map (sampleBytes b i) (seq 0 (numberOfChannels b)))
           (seq 0 (bufferLength b)).

(** ** Opus export: the MIME type negotiation *)

Definition candidates : list string :=
  [ "audio/mp4;codecs=opus";
    "audio/ogg;codecs=opus";
    "audio/webm;codecs=opus";
    "audio/webm" ]%string.

(** Pick the best supported MIME type for Opus recording;
    [isTypeSupported] is the host's [MediaRecorder.isTypeSupported]. *)
Definition pickOpusMimeType (isTypeSupported : string -> bool) : string :=
  match find isTypeSupported candidates with
  | Some t => t
  | None => nth 3 candidates ""%string
  end.

(** [new MediaRecorder(stream, { mimeType })] raises NotSupportedError for a
    type the host does not support. *)
Definition newMediaRecorder (isTypeSupported : string -> bool)
  (mimeType : string) : result string :=
  if isTypeSupported mimeType then Ok mimeType
  else Err (Platform NotSupportedError).

(** The start of [audioBufferToOpus], up to the recorder's construction;
    the recording itself runs in real time and is not modelled. *)
Definition openRecorder (isTypeSupported : string -> bool) : result string :=
  let mimeType := pickOpusMimeType isTypeSupported in
  newMediaRecorder isTypeSupported mimeType.

(** ** Composition of the gain, as the specification words it

    The specification describes the gain at a frame as a product: the
    volume, times the fade-in envelope inside the fade-in window, times the
    fade-out envelope inside the fade-out window.  The envelope of a fade is
    the ease curve of that fade at the progress through its window: rising
    from 0 to 1 for a fade in, and its descending mirror for a fade out. *)

Definition totalDuration (b : AudioBuffer) (s : AudioEditSettings) : R :=
  IZR (croppedLength b s) / IZR (sampleRate b).

Definition withoutFadeIn (s : AudioEditSettings) : AudioEditSettings :=
  mkSettings (cropStart s) (cropEnd s) (volume s)
             (mkFade false (duration (fadeIn s)) (curve (fadeIn s)))
             (fadeOut s).

Definition withoutFadeOut (s : AudioEditSettings) : AudioEditSettings :=
  mkSettings (cropStart s) (cropEnd s) (volume s) (fadeIn s)
             (mkFade false (duration (fadeOut s)) (curve (fadeOut s))).

(** Gain at time [t] under the automation of [s]; 0 when the platform
    refuses the automation and nothing is rendered. *)
Definition gainAt (b : AudioBuffer) (s : AudioEditSettings) (t : R) : R :=
  match scheduleGain b s with
  | Ok gain => valueAtTime gain t
  | Err _ => 0
  end.






(** The events each block schedules, in call order. *)
Definition fadeInEvents (f : Fade) (vol total : R) : list AutomationEvent :=
  if fadeActive f then
    let fadeDuration := Rmin (duration f) total in
    match curve f with
    | linear => [SetValue 0 0; LinearRamp vol fadeDuration]
    | exponential =>
        [SetValue 0 0; SetValue 0.001 0; ExponentialRamp vol fadeDuration]
    | logarithmic | sCurve =>
        [SetValue 0 0;
         SetValueCurve (fadeInCurveValues (curve f) vol) 0 fadeDuration]
    end
  else [].

Definition fadeOutEvents (f : Fade) (vol total : R) : list AutomationEvent :=
  if fadeActive f then
    let fadeDuration := Rmin (duration f) total in
    let fadeOutStart := total - fadeDuration in
    match curve f with
    | linear => [SetValue vol fadeOutStart; LinearRamp 0 total]
    | exponential => [SetValue vol fadeOutStart; ExponentialRamp 0.001 total]
    | logarithmic | sCurve =>
        [SetValueCurve (fadeOutCurveValues (curve f) vol) fadeOutStart
                       fadeDuration]
    end
  else [].

(** The event is over at time [t]: it is at or before [t], and a curve has
    ended by [t]. *)
Definition doneBy (t : R) (e : AutomationEvent) : Prop :=
  eventTime e <= t /\
  match e with
  | SetValueCurve _ T D => T + D <= t
  | _ => True
  end.

(** Events that set the value on their own: a set-value and a curve. *)
Definition resets (e : AutomationEvent) : Prop :=
  match e with
  | SetValue _ _ | SetValueCurve _ _ _ => True
  | _ => False
  end.

(** The fade windows are apart: the fade in ends before the fade out
    starts. *)
Definition disjointFades (b : AudioBuffer) (s : AudioEditSettings) : Prop :=
  fadeActive (fadeIn s) = true -> fadeActive (fadeOut s) = true ->
  Rmin (duration (fadeIn s)) (totalDuration b s)
  + Rmin (duration (fadeOut s)) (totalDuration b s)
  < totalDuration b s.


(** The platform accepts an exponential fade in only at a volume that is
    not 0. *)
Definition audibleExponentialFadeIn (s : AudioEditSettings) : Prop :=
  fadeActive (fadeIn s) = true -> curve (fadeIn s) = exponential ->
  volume s <> 0.

(** ** Sample inputs *)

(** A user agent that holds the frame at or before the playhead. *)
Definition holdFrame (data : list R) (pos : R) : R :=
  nth (Z.to_nat (floor pos)) data 0.


(** Four frames of a constant signal at 8 kHz, one channel. *)
Definition fourOnes : AudioBuffer := mkBuffer 8000 [1; 1; 1; 1] [].

Definition noFade : Fade := mkFade false 0 linear.

(** The whole buffer, unit volume, no fades. *)
Definition plainCrop : AudioEditSettings :=
  mkSettings 0 0.0005 1 noFade noFade.

(** A crop shorter than one frame: 0.8 frames at 8 kHz. *)
Definition subFrameCrop : AudioEditSettings :=
  mkSettings 0 0.0001 1 noFade noFade.

(** The whole buffer, muted, with an exponential fade in. *)
Definition mutedExponentialFadeIn : AudioEditSettings :=
  mkSettings 0 0.0005 0 (mkFade true 0.00025 exponential) noFade.

(** Linear fades of three frames each over the four frames: the windows
    overlap on frames 1 and 2. *)
Definition overlappingFades : AudioEditSettings :=
  mkSettings 0 0.0005 1 (mkFade true 0.000375 linear)
             (mkFade true 0.000375 linear).


(** The end-to-end scenario scaled to the four frames: half volume and a
    linear fade in over the first two frames. *)
Definition halfVolumeFadeIn : AudioEditSettings :=
  mkSettings 0 0.0005 0.5 (mkFade true 0.00025 linear) noFade.


(** A fade in that is switched on with no duration, and nothing else. *)
Definition zeroDurationFadeIn : AudioEditSettings :=
  mkSettings 0 0.0005 0.5 (mkFade true 0 sCurve) noFade.





(** ** The rest of the module and its callers *)

(** A fade whose curve is sampled ([setValueCurveAtTime]) rather than
    ramped. *)
Definition sampledCurve (c : EaseCurve) : bool :=
  match c with
  | logarithmic | sCurve => true
  | linear | exponential => false
  end.

(** The event sets, ramps to or samples only values between 0 and [H]. *)
Definition boundedEvent (H : R) (e : AutomationEvent) : Prop :=
  match e with
  | SetValue v _ => 0 <= v <= H
  | LinearRamp v _ => 0 <= v <= H
  | ExponentialRamp v _ => 0 <= v <= H
  | SetValueCurve vs _ _ => forall k, 0 <= nth k vs 0 <= H
  end.

(** The timeline starts with the volume event, and everything after it is
    bounded by [H]. *)
Definition volumeFirst (V H : R) (tl : Timeline) : Prop :=
  exists rest, tl = SetValue V 0 :: rest /\ Forall (boundedEvent H) rest.

(** The fade is applied and its curve is exponential. *)
Definition exponentialFade (f : Fade) : bool :=
  fadeActive f
  && match curve f with exponential => true | _ => false end.



(** A lone fade in of two frames, with the given curve, at volume 0.5. *)
Definition loneFadeIn (c : EaseCurve) : AudioEditSettings :=
  mkSettings 0 0.0005 0.5 (mkFade true 0.00025 c) noFade.

(** A lone fade out of two frames, with the given curve, at volume 0.5. *)
Definition loneFadeOut (c : EaseCurve) : AudioEditSettings :=
  mkSettings 0 0.0005 0.5 noFade (mkFade true 0.00025 c).


(** *** Export *)

Inductive ExportFormat : Type :=
  | wav
  | opus.

(** [s.includes(sub)]. *)
Fixpoint includes (s sub : string) : bool :=
  if String.prefix sub s then true
  else match s with
       | EmptyString => false
       | String _ rest => includes rest sub
       end.

(** What the export rejects with: the [Error("MediaRecorder error")] of the
    recorder's error event, or a failure raised on the way. *)
Inductive ExportError : Type :=
  | MediaRecorderError
  | Raised (e : Failure).

(** The file extension [exportAudio] derives from the type of an Opus
    blob. *)
Definition opusExtension (type : string) : string :=
  let extension := "webm"%string in
  if includes type "ogg" then "ogg"%string
  else if includes type "mp4" then "m4a"%string
  else extension.

Definition isDot (c : ascii) : bool := Ascii.eqb c "."%char.

Fixpoint dotFree (s : string) : bool :=
  match s with
  | EmptyString => true
  | String c rest => negb (isDot c) && dotFree rest
  end.

Definition isExtension (s : string) : bool :=
  match s with
  | EmptyString => false
  | String c rest =>
      isDot c
      && match rest with EmptyString => false | _ => dotFree rest end
  end.

(** [name.replace(/\.[^.]+$/, "")]: the leftmost position where a dot is
    followed, up to the end of the name, by one or more characters that are
    not dots; the name is cut there. *)
Fixpoint nameWithoutExt (name : string) : string :=
  if isExtension name then EmptyString
  else match name with
       | EmptyString => EmptyString
       | String c rest => String c (nameWithoutExt rest)
       end.

Section Exporting.

(** The host of the Opus export: the sample rates an [AudioContext] can be
    created with, the types [MediaRecorder] supports, and the recording
    itself, which runs in real time and is not modelled: the chunks the
    recorder has delivered when it stops, or what it failed with. *)
Variable contextSupports : Z -> bool.
Variable isTypeSupported : string -> bool.
Variable recording : AudioBuffer -> string -> ExportError + list Z.

(** Encode an AudioBuffer to Opus using MediaRecorder; the blob takes the
    negotiated type. *)
Definition audioBufferToOpus (buffer : AudioBuffer) : ExportError + Blob :=
  if contextSupports (sampleRate buffer) then
    match openRecorder isTypeSupported with
    | Err e => inl (Raised e)
    | Ok mimeType =>
        match recording buffer mimeType with
        | inl e => inl e
        | inr chunks => inr (mkBlob chunks mimeType)
        end
    end
  else inl (Raised (Platform NotSupportedError)).

(** Export an AudioBuffer in the specified format. *)
Definition exportAudio (buffer : AudioBuffer) (format : ExportFormat)
  : ExportError + Blob * string :=
  match format with
  | opus =>
      match audioBufferToOpus buffer with
      | inl e => inl e
      | inr blob => inr (blob, opusExtension (blobType blob))
      end
  | wav =>
      match audioBufferToWav buffer with
      | Err e => inl (Raised e)
      | Ok blob => inr (blob, "wav"%string)
      end
  end.

Variable interpolate : list R -> R -> R.

(** [handleDownload]: process, export, and name the download after the
    uploaded file; the result is the blob and [link.download]. *)
Definition handleDownload (fileName : string) (buffer : AudioBuffer)
  (settings : AudioEditSettings) (format : ExportFormat)
  : ExportError + Blob * string :=
  match processAudio interpolate buffer settings with
  | Err e => inl (Raised e)
  | Ok processedBuffer =>
      match exportAudio processedBuffer format with
      | inl e => inl e
      | inr (blob, extension) =>
          inr (blob,
               (nameWithoutExt fileName ++ "-edited." ++ extension)%string)
      end
  end.

End Exporting.

(** *** Time display *)

(** [String(z)] for an integer [z]; from [10^21] on JavaScript switches to
    exponent notation, which is not modelled. *)
Definition integerToString (z : Z) : string :=
  NilZero.string_of_int (Z.to_int z).

(** [s.padStart(targetLength, fill)] for a one-character [fill]. *)
Definition padStart (targetLength : nat) (fill : ascii) (s : string)
  : string :=
  (string_of_list_ascii (repeat fill (targetLength - String.length s))
   ++ s)%string.

(** [x.toFixed(2)] below [10^21]: the sign, then the integer [n] nearest to
    [100 * |x|] (the larger one on a tie) written with at least three
    digits and a point before the last two. *)
Definition hundredths (n : Z) : string :=
  let m := padStart 3 "0" (integerToString n) in
  let k := String.length m in
  (substring 0 (k - 2) m ++ "." ++ substring (k - 2) 2 m)%string.

Definition toFixed2 (x : R) : string :=
  let s := if Rlt_dec x 0 then "-"%string else ""%string in
  let x := if Rlt_dec x 0 then - x else x in
  let n := floor (x * 100 + / 2) in
  (s ++ hundredths n)%string.

(** [n % d]: the remainder of the division truncated towards zero. *)
Definition remainder (n d : R) : R := n - d * IZR (trunc (n / d)).

(** Format seconds to mm:ss.ms display. *)
Definition formatTime (seconds : R) : string :=
  let mins := floor (seconds / 60) in
  let secs := remainder seconds 60 in
  (integerToString mins ++ ":" ++ padStart 5 "0" (toFixed2 secs))%string.

(** A decimal digit, and the five characters "SS.CC" of [n] hundredths. *)
Definition digit (d : Z) : ascii := ascii_of_nat (48 + Z.to_nat d).

Definition clock (n : Z) : string :=
  String (digit (n / 1000)) (String (digit (n / 100 mod 10))
    (String "." (String (digit (n / 10 mod 10))
      (String (digit (n mod 10)) EmptyString)))).

(** *** The controls *)

(** [updateSetting(key, value)] for the numeric keys. *)
Inductive SettingKey : Type :=
  | cropStartKey
  | cropEndKey
  | volumeKey.

Definition updateSetting (settings : AudioEditSettings) (key : SettingKey)
  (value : R) : AudioEditSettings :=
  match key with
  | cropStartKey =>
      mkSettings value (cropEnd settings) (volume settings)
                 (fadeIn settings) (fadeOut settings)
  | cropEndKey =>
      mkSettings (cropStart settings) value (volume settings)
                 (fadeIn settings) (fadeOut settings)
  | volumeKey =>
      mkSettings (cropStart settings) (cropEnd settings) value
                 (fadeIn settings) (fadeOut settings)
  end.

(** The partial fade objects the controls pass to [updateFadeIn] and
    [updateFadeOut]: one field each. *)
Inductive FadeUpdate : Type :=
  | enabledUpdate (e : bool)
  | durationUpdate (d : R)
  | curveUpdate (c : EaseCurve).

Definition mergeFade (f : Fade) (updates : FadeUpdate) : Fade :=
  match updates with
  | enabledUpdate e => mkFade e (duration f) (curve f)
  | durationUpdate d => mkFade (enabled f) d (curve f)
  | curveUpdate c => mkFade (enabled f) (duration f) c
  end.

Definition updateFadeIn (settings : AudioEditSettings) (updates : FadeUpdate)
  : AudioEditSettings :=
  mkSettings (cropStart settings) (cropEnd settings) (volume settings)
             (mergeFade (fadeIn settings) updates) (fadeOut settings).

Definition updateFadeOut (settings : AudioEditSettings) (updates : FadeUpdate)
  : AudioEditSettings :=
  mkSettings (cropStart settings) (cropEnd settings) (volume settings)
             (fadeIn settings) (mergeFade (fadeOut settings) updates).

(** What the user does to the controls: the two crop sliders, whose
    handlers refuse to cross each other, the volume slider and the fade
    controls. *)
Inductive ControlEvent : Type :=
  | startSlider (val : R)
  | endSlider (val : R)
  | volumeSlider (val : R)
  | fadeInControl (updates : FadeUpdate)
  | fadeOutControl (updates : FadeUpdate).

Definition onChange (settings : AudioEditSettings) (e : ControlEvent)
  : AudioEditSettings :=
  match e with
  | startSlider val =>
      if Rlt_dec val (cropEnd settings)
      then updateSetting settings cropStartKey val
      else settings
  | endSlider val =>
      if Rgt_dec val (cropStart settings)
      then updateSetting settings cropEndKey val
      else settings
  | volumeSlider val => updateSetting settings volumeKey val
  | fadeInControl updates => updateFadeIn settings updates
  | fadeOutControl updates => updateFadeOut settings updates
  end.

(** The values a crop slider offers lie between its [min = 0] and its
    [max = duration]. *)
Definition cropSliderValue (dur val : R) : Prop := 0 <= val <= dur.

Definition offered (dur : R) (e : ControlEvent) : Prop :=
  match e with
  | startSlider val | endSlider val => cropSliderValue dur val
  | _ => True
  end.

(** The crop the sliders maintain: an ordered region inside the buffer. *)
Definition cropInvariant (dur : R) (s : AudioEditSettings) : Prop :=
  0 <= cropStart s < cropEnd s /\ cropEnd s <= dur.

(** A session at the controls of a recording of 0.03 s: the end is moved to
    0.02 s, the start to 0.01 s, a move of the start onto the end is
    refused, and the fade in is switched on. *)
Definition cropSession : list ControlEvent :=
  [endSlider 0.02; startSlider 0.01; startSlider 0.02;
   fadeInControl (enabledUpdate true)].

(** * Properties *)

(** ** Arithmetic helpers *)

Lemma floor_bounds (x : R) : IZR (floor x) <= x < IZR (floor x) + 1.
Proof.
  unfold floor. destruct (base_Int_part x) as [H1 H2]. split; lra.
Qed.

Lemma floor_unique (x : R) (z : Z) : IZR z <= x < IZR z + 1 -> floor x = z.
Proof.
  intros [H1 H2]. unfold floor. symmetry. apply Int_part_spec. split; lra.
Qed.

Lemma floor_IZR (z : Z) : floor (IZR z) = z.
Proof. apply floor_unique. lra. Qed.

Lemma floor_INR (n : nat) : floor (INR n) = Z.of_nat n.
Proof. rewrite INR_IZR_INZ. apply floor_IZR. Qed.

Lemma floor_le (x y : R) : x <= y -> (floor x <= floor y)%Z.
Proof.
  intros Hxy.
  destruct (floor_bounds x) as [Hx _]. destruct (floor_bounds y) as [_ Hy].
  apply Z.lt_succ_r. apply lt_IZR. rewrite succ_IZR. lra.
Qed.

Lemma trunc_nonneg (x : R) : 0 <= x -> trunc x = floor x.
Proof. intros H. unfold trunc. destruct (Rle_dec 0 x); [reflexivity | lra]. Qed.

Lemma trunc_neg (x : R) : x < 0 -> trunc x = (- floor (- x))%Z.
Proof. intros H. unfold trunc. destruct (Rle_dec 0 x); [lra | reflexivity]. Qed.

(** ** Ease curves *)

Lemma sCurve_increasing (a b : R) :
  0 <= a -> a <= b -> b <= 1 -> a * a * (3 - 2 * a) <= b * b * (3 - 2 * b).
Proof.
  intros Ha Hab Hb.
  assert (E : b * b * (3 - 2 * b) - a * a * (3 - 2 * a)
              = (b - a) * (3 * (a + b) - 2 * (a * a + a * b + b * b)))
    by ring.
  assert (H1 : a * a <= a) by nra.
  assert (H2 : b * b <= b) by nra.
  assert (H3 : a * b <= a) by nra.
  assert (H4 : a * b <= b) by nra.
  assert (0 <= (b - a) * (3 * (a + b) - 2 * (a * a + a * b + b * b))).
  { apply Rmult_le_pos; lra. }
  lra.
Qed.

Lemma applyEaseCurve_0 (c : EaseCurve) : applyEaseCurve 0 c = 0.
Proof. destruct c; simpl; try ring. apply sqrt_0. Qed.

Lemma applyEaseCurve_1 (c : EaseCurve) : applyEaseCurve 1 c = 1.
Proof. destruct c; simpl; try ring. apply sqrt_1. Qed.

Lemma applyEaseCurve_mono (c : EaseCurve) (t1 t2 : R) :
  0 <= t1 -> t1 <= t2 -> t2 <= 1 -> applyEaseCurve t1 c <= applyEaseCurve t2 c.
Proof.
  intros H0 H12 H1. destruct c; simpl.
  - exact H12.
  - nra.
  - apply sqrt_le_1; lra.
  - apply sCurve_increasing; assumption.
Qed.

(** The values of an ease curve on [0, 1] stay in [0, 1]. *)
Lemma applyEaseCurve_range (c : EaseCurve) (t : R) :
  0 <= t <= 1 -> 0 <= applyEaseCurve t c <= 1.
Proof.
  intros [H0 H1]. split.
  - rewrite <- (applyEaseCurve_0 c). apply applyEaseCurve_mono; lra.
  - rewrite <- (applyEaseCurve_1 c). apply applyEaseCurve_mono; lra.
Qed.

(** C8. On [0, 1] every ease curve starts at 0, ends at 1 and never
    decreases; the four laws are [t], [t * t], [sqrt t] and
    [t * t * (3 - 2 t)]. *)
Theorem applyEaseCurve_contract (c : EaseCurve) (t1 t2 : R)
  (H0 : 0 <= t1) (H12 : t1 <= t2) (H1 : t2 <= 1) :
  applyEaseCurve 0 c = 0 /\
  applyEaseCurve 1 c = 1 /\
  applyEaseCurve t1 c <= applyEaseCurve t2 c /\
  applyEaseCurve t1 linear = t1 /\
  applyEaseCurve t1 exponential = t1 * t1 /\
  applyEaseCurve t1 logarithmic = sqrt t1 /\
  applyEaseCurve t1 sCurve = t1 * t1 * (3 - 2 * t1).
Proof.
  repeat split; try reflexivity.
  - apply applyEaseCurve_0.
  - apply applyEaseCurve_1.
  - apply applyEaseCurve_mono; assumption.
Qed.

Lemma applyEaseCurve_contract_witness :
  applyEaseCurve (1 / 4) sCurve <= applyEaseCurve (1 / 2) sCurve.
Proof.
  apply (applyEaseCurve_contract sCurve (1 / 4) (1 / 2)); lra.
Defined.

(** ** Opus export *)

Lemma find_none_all_false (host : string -> bool) (l : list string) :
  (forall c, In c l -> host c = false) -> find host l = None.
Proof.
  induction l as [| x l IH]; intros H; simpl.
  - reflexivity.
  - rewrite (H x (or_introl eq_refl)). apply IH.
    intros c Hc. apply H. right. exact Hc.
Qed.

(** C4, as the code has it.  When the host supports none of the four
    candidates, the picker falls back to the last entry, ["audio/webm"],
    although the host reported it unsupported; the failure the caller sees
    is the NotSupportedError the recorder's constructor raises for it. *)
Theorem pickOpusMimeType_fallback (host : string -> bool)
  (Hnone : forall c, In c candidates -> host c = false) :
  pickOpusMimeType host = "audio/webm"%string /\
  In (pickOpusMimeType host) candidates /\
  host (pickOpusMimeType host) = false /\
  openRecorder host = Err (Platform NotSupportedError).
Proof.
  assert (E : pickOpusMimeType host = "audio/webm"%string).
  { unfold pickOpusMimeType. rewrite (find_none_all_false _ _ Hnone).
    reflexivity. }
  assert (Hin : In "audio/webm"%string candidates).
  { simpl. tauto. }
  unfold openRecorder, newMediaRecorder. rewrite E.
  rewrite (Hnone _ Hin). repeat split; assumption || reflexivity.
Qed.

Lemma pickOpusMimeType_fallback_witness :
  openRecorder (fun _ => false) = Err (Platform NotSupportedError).
Proof.
  apply (pickOpusMimeType_fallback (fun _ => false)).
  intros c _. reflexivity.
Defined.

(** With no candidate supported the picker returns a list entry that the
    host reported as unsupported. *)
Lemma pickOpusMimeType_picks_unsupported :
  let host := fun _ : string => false in
  (forall c, In c candidates -> host c = false) /\
  pickOpusMimeType host = "audio/webm"%string /\
  In (pickOpusMimeType host) candidates /\
  host (pickOpusMimeType host) = false.
Proof.
  simpl. repeat split; try reflexivity. tauto.
Qed.

(** A supported candidate is picked in preference order, and the recorder
    opens on it. *)
Lemma pickOpusMimeType_supported (host : string -> bool) :
  (exists c, In c candidates /\ host c = true) ->
  host (pickOpusMimeType host) = true /\
  openRecorder host = Ok (pickOpusMimeType host).
Proof.
  intros (c & Hin & Hc).
  assert (H : host (pickOpusMimeType host) = true).
  { unfold pickOpusMimeType.
    destruct (find host candidates) as [t |] eqn:E.
    - apply (find_some _ _ E).
    - rewrite (find_none _ _ E c Hin) in Hc. discriminate. }
  split; [exact H |]. unfold openRecorder, newMediaRecorder.
  rewrite H. reflexivity.
Qed.

(** ** Sample quantization *)

Lemma clampSample_range (sample : R) : -1 <= clampSample sample <= 1.
Proof.
  unfold clampSample, Rmax, Rmin.
  destruct (Rle_dec 1 sample); destruct (Rle_dec (-1) _); lra.
Qed.

Lemma clampSample_cases (sample : R) :
  clampSample sample =
  if Rlt_dec sample (-1) then -1 else if Rlt_dec 1 sample then 1 else sample.
Proof.
  unfold clampSample, Rmax, Rmin.
  destruct (Rle_dec 1 sample); destruct (Rle_dec (-1) _);
    destruct (Rlt_dec sample (-1)); destruct (Rlt_dec 1 sample); lra.
Qed.

Lemma scaleSample_range (c : R) :
  -1 <= c <= 1 -> -32768 <= scaleSample c <= 32767.
Proof.
  intros [Hl Hu]. unfold scaleSample. destruct (Rlt_dec c 0); lra.
Qed.

Lemma trunc_int16_range (x : R) :
  -32768 <= x <= 32767 -> (-32768 <= trunc x <= 32767)%Z.
Proof.
  intros [Hl Hu]. destruct (Rle_dec 0 x) as [Hx | Hx].
  - rewrite trunc_nonneg by exact Hx.
    pose proof (floor_le 0 x Hx) as H0. rewrite floor_IZR in H0.
    pose proof (floor_le x 32767 Hu) as H1. rewrite floor_IZR in H1. lia.
  - rewrite trunc_neg by lra.
    assert (H0 : 0 <= - x) by lra.
    apply floor_le in H0. rewrite floor_IZR in H0.
    assert (H1 : - x <= 32768) by lra.
    apply floor_le in H1. rewrite floor_IZR in H1. lia.
Qed.

Lemma uint16_le_bytes (v : Z) :
  uintOfLeBytes (intBytes 2 v true) = (v mod 65536)%Z.
Proof.
  unfold uintOfLeBytes, intBytes. cbn [leBytes fold_right].
  replace 65536%Z with (256 * 256)%Z by reflexivity.
  rewrite Z.rem_mul_r by lia. lia.
Qed.

Lemma int16_bytes_roundtrip (v : Z) :
  (-32768 <= v <= 32767)%Z -> int16OfLeBytes (intBytes 2 v true) = v.
Proof.
  intros Hv. unfold int16OfLeBytes. rewrite uint16_le_bytes.
  destruct (Z.ltb_spec (v mod 65536) 32768) as [H | H].
  - assert (0 <= v)%Z by (Z.to_euclidean_division_equations; lia).
    apply Z.mod_small. lia.
  - assert (v < 0)%Z by (Z.to_euclidean_division_equations; lia).
    Z.to_euclidean_division_equations; lia.
Qed.

(** ** Waveform peaks *)

(** What the inner loop computes from an accumulator [(M, m)] over the
    indices [js]. *)
Lemma peaks_fold (data : list R) (js : list nat) : forall M m : R,
  let r := fold_left (peakStep data) js (M, m) in
  M <= fst r /\ snd r <= m /\
  (forall j, In j js -> snd r <= nth j data 0 <= fst r) /\
  (fst r = M \/ exists j, In j js /\ fst r = nth j data 0) /\
  (snd r = m \/ exists j, In j js /\ snd r = nth j data 0).
Proof.
  induction js as [| j0 js IH]; intros M m; cbn [fold_left].
  - cbn. repeat split; try lra; try tauto.
  - set (v := nth j0 data 0).
    set (M1 := if Rlt_dec M v then v else M).
    set (m1 := if Rlt_dec v m then v else m).
    change (peakStep data (M, m) j0) with (M1, m1).
    assert (HM1 : M <= M1 /\ v <= M1 /\ (M1 = M \/ M1 = v)).
    { unfold M1. destruct (Rlt_dec M v); lra. }
    assert (Hm1 : m1 <= m /\ m1 <= v /\ (m1 = m \/ m1 = v)).
    { unfold m1. destruct (Rlt_dec v m); lra. }
    specialize (IH M1 m1). cbv zeta in IH |- *.
    destruct IH as (I1 & I2 & I3 & I4 & I5).
    repeat split.
    + lra.
    + lra.
    + destruct H as [<- | H]; [fold v; lra | apply (I3 j H)].
    + destruct H as [<- | H]; [fold v; lra | apply (I3 j H)].
    + destruct I4 as [E | (j & Hj & E)].
      * destruct HM1 as (_ & _ & [E1 | E1]).
        -- left. lra.
        -- right. exists j0. split; [left; reflexivity | fold v; lra].
      * right. exists j. split; [right; exact Hj | exact E].
    + destruct I5 as [E | (j & Hj & E)].
      * destruct Hm1 as (_ & _ & [E1 | E1]).
        -- left. lra.
        -- right. exists j0. split; [left; reflexivity | fold v; lra].
      * right. exists j. split; [right; exact Hj | exact E].
Qed.

(** Every window lies inside the channel: the partial window after the last
    bucket is never read. *)
Lemma window_inside (len N i : nat) :
  (i < N)%nat -> (i * (len / N) + len / N <= len)%nat.
Proof.
  intros Hi. assert (HN : N <> 0%nat) by lia.
  pose proof (Nat.Div0.mul_div_le len N). nia.
Qed.

Lemma bucketPeaks_window (data : list R) (N i : nat) :
  (i < N)%nat ->
  bucketPeaks data (List.length data / N) i =
  fold_left (peakStep data)
            (seq (i * (List.length data / N)) (List.length data / N)) (-1, 1).
Proof.
  intros Hi. unfold bucketPeaks.
  pose proof (window_inside (List.length data) N i Hi) as Hw.
  rewrite Nat.min_l by exact Hw.
  replace (i * (List.length data / N) + List.length data / N
           - i * (List.length data / N))%nat
    with (List.length data / N)%nat by lia.
  reflexivity.
Qed.

Lemma extractWaveformPeaks_nth (b : AudioBuffer) (N i : nat) :
  (i < N)%nat ->
  (nth i (positive (extractWaveformPeaks b N)) 0,
   nth i (negative (extractWaveformPeaks b N)) 0)
  = bucketPeaks (firstChannel b) (List.length (firstChannel b) / N) i.
Proof.
  intros Hi. unfold extractWaveformPeaks. cbn [positive negative].
  set (f := bucketPeaks _ _).
  rewrite !map_map.
  rewrite (nth_indep _ 0 (fst (f 0%nat)))
    by (rewrite length_map, length_seq; exact Hi).
  rewrite (nth_indep (map (fun x => snd (f x)) _) 0 (snd (f 0%nat)))
    by (rewrite length_map, length_seq; exact Hi).
  rewrite (map_nth (fun x => fst (f x))), (map_nth (fun x => snd (f x))).
  rewrite seq_nth by exact Hi. rewrite Nat.add_0_l.
  symmetry. apply surjective_pairing.
Qed.

(** C7, as the code has it.  For a positive bucket count [N] the two
    sequences have length [N]; bucket [i] covers the [floor (length / N)]
    samples from [i * floor (length / N)], all inside the channel; an empty
    window gives [(-1, 1)]; a non-empty one has [negative <= positive].
    [positive] is the larger of -1 and the window's maximum and [negative]
    the smaller of 1 and its minimum: they bound every sample of the window,
    and each is either the initial value or a sample of the window; they are
    the window's maximum and minimum when its samples lie in [-1, 1]. *)
Theorem extractWaveformPeaks_shape (b : AudioBuffer) (N i : nat)
  (Hi : (i < N)%nat) :
  let data := firstChannel b in
  let spb := (List.length data / N)%nat in
  let window := fun j => (i * spb <= j < i * spb + spb)%nat in
  let P := nth i (positive (extractWaveformPeaks b N)) 0 in
  let Ng := nth i (negative (extractWaveformPeaks b N)) 0 in
  List.length (positive (extractWaveformPeaks b N)) = N /\
  List.length (negative (extractWaveformPeaks b N)) = N /\
  (i * spb + spb <= List.length data)%nat /\
  (spb = 0%nat -> P = -1 /\ Ng = 1) /\
  ((0 < spb)%nat -> Ng <= P) /\
  -1 <= P /\ Ng <= 1 /\
  (forall j, window j -> Ng <= nth j data 0 <= P) /\
  (P = -1 \/ exists j, window j /\ P = nth j data 0) /\
  (Ng = 1 \/ exists j, window j /\ Ng = nth j data 0) /\
  ((0 < spb)%nat -> (forall j, window j -> -1 <= nth j data 0 <= 1) ->
   (exists j, window j /\ P = nth j data 0) /\
   (exists j, window j /\ Ng = nth j data 0)).
Proof.
  cbv zeta.
  set (data := firstChannel b). set (spb := (List.length data / N)%nat).
  pose proof (extractWaveformPeaks_nth b N i Hi) as E.
  fold data in E. fold spb in E.
  unfold spb in E at 1. rewrite (bucketPeaks_window data N i Hi) in E.
  fold spb in E.
  pose proof (peaks_fold data (seq (i * spb) spb) (-1) 1) as F.
  cbv zeta in F. rewrite <- E in F. cbn [fst snd] in F.
  destruct F as (F1 & F2 & F3 & F4 & F5).
  set (P := nth i (positive (extractWaveformPeaks b N)) 0) in *.
  set (Ng := nth i (negative (extractWaveformPeaks b N)) 0) in *.
  assert (Hwin : forall j, In j (seq (i * spb) spb)
                           <-> (i * spb <= j < i * spb + spb)%nat)
    by (intros j; apply in_seq).
  assert (F4' : P = -1 \/
                exists j, (i * spb <= j < i * spb + spb)%nat
                          /\ P = nth j data 0).
  { destruct F4 as [F | (j & Hj & F)]; [left; exact F |].
    right. exists j. split; [apply Hwin; exact Hj | exact F]. }
  assert (F5' : Ng = 1 \/
                exists j, (i * spb <= j < i * spb + spb)%nat
                          /\ Ng = nth j data 0).
  { destruct F5 as [F | (j & Hj & F)]; [left; exact F |].
    right. exists j. split; [apply Hwin; exact Hj | exact F]. }
  assert (F3' : forall j, (i * spb <= j < i * spb + spb)%nat ->
                          Ng <= nth j data 0 <= P).
  { intros j Hj. apply F3. apply Hwin. exact Hj. }
  split; [| split; [| split; [| split; [| split; [| split; [| split;
    [| split; [| split; [| split]]]]]]]]].
  - unfold extractWaveformPeaks. cbn [positive].
    rewrite !length_map, length_seq. reflexivity.
  - unfold extractWaveformPeaks. cbn [negative].
    rewrite !length_map, length_seq. reflexivity.
  - apply window_inside. exact Hi.
  - intros H0.
    destruct F4' as [F | (j & Hj & _)]; [| lia].
    destruct F5' as [G | (j & Hj & _)]; [| lia].
    split; assumption.
  - intros Hpos.
    assert (Ng <= nth (i * spb) data 0 <= P) by (apply F3'; lia). lra.
  - exact F1.
  - exact F2.
  - exact F3'.
  - exact F4'.
  - exact F5'.
  - intros Hpos Hrange.
    assert (H0 : (i * spb <= i * spb < i * spb + spb)%nat) by lia.
    split.
    + destruct F4' as [F | F]; [| exact F].
      exists (i * spb)%nat. split; [exact H0 |].
      pose proof (F3' _ H0). pose proof (Hrange _ H0). lra.
    + destruct F5' as [F | F]; [| exact F].
      exists (i * spb)%nat. split; [exact H0 |].
      pose proof (F3' _ H0). pose proof (Hrange _ H0). lra.
Qed.

Lemma extractWaveformPeaks_shape_witness :
  let b := mkBuffer 8000 [0.5; -0.25] [] in
  nth 0 (negative (extractWaveformPeaks b 2)) 0
  <= nth 0 (positive (extractWaveformPeaks b 2)) 0.
Proof.
  apply (extractWaveformPeaks_shape (mkBuffer 8000 [0.5; -0.25] []) 2 0);
    cbn; lia.
Defined.

(** A one-sample window holding 2: [positive] is 2 but [negative] stays at
    its initial value 1, which is not the window's minimum (not even one of
    its samples). *)
Lemma extractWaveformPeaks_negative_not_minimum :
  let b := mkBuffer 8000 [2] [] in
  positive (extractWaveformPeaks b 1) = [2] /\
  negative (extractWaveformPeaks b 1) = [1] /\
  ~ In (nth 0 (negative (extractWaveformPeaks b 1)) 0) (firstChannel b).
Proof.
  cbv zeta.
  assert (E : extractWaveformPeaks (mkBuffer 8000 [2] []) 1 = mkPeaks [2] [1]).
  { unfold extractWaveformPeaks, bucketPeaks, peakStep. cbn.
    destruct (Rlt_dec (-1) 2); [| lra]. destruct (Rlt_dec 2 1); [lra |].
    reflexivity. }
  rewrite E. cbn. repeat split; try reflexivity.
  intros [H | []]. lra.
Qed.

(** ** The renderer: failures and dimensions *)

Lemma bind_Ok {A B : Type} (a : A) (k : A -> result B) :
  (x <- Ok a ;; k x) = k a.
Proof. reflexivity. Qed.

Lemma bind_not_EmptyRegion {A B : Type} (m : result A) (k : A -> result B) :
  m <> Err EmptyRegion -> (forall a, k a <> Err EmptyRegion) ->
  bind m k <> Err EmptyRegion.
Proof.
  intros Hm Hk. destruct m as [a | e]; simpl.
  - apply Hk.
  - intros E. apply Hm. injection E as ->. reflexivity.
Qed.

Ltac case_ifs :=
  repeat match goal with
         | |- context [if ?c then _ else _] => destruct c
         end.

Lemma setValueAtTime_platform (v t : R) (tl : Timeline) :
  setValueAtTime v t tl <> Err EmptyRegion.
Proof. unfold setValueAtTime. case_ifs; discriminate. Qed.

Lemma linearRamp_platform (v t : R) (tl : Timeline) :
  linearRampToValueAtTime v t tl <> Err EmptyRegion.
Proof. unfold linearRampToValueAtTime. case_ifs; discriminate. Qed.

Lemma exponentialRamp_platform (v t : R) (tl : Timeline) :
  exponentialRampToValueAtTime v t tl <> Err EmptyRegion.
Proof. unfold exponentialRampToValueAtTime. case_ifs; discriminate. Qed.

Lemma setValueCurve_platform (vs : list R) (t d : R) (tl : Timeline) :
  setValueCurveAtTime vs t d tl <> Err EmptyRegion.
Proof. unfold setValueCurveAtTime. case_ifs; discriminate. Qed.

Lemma start_platform (w o d : R) : start w o d <> Err EmptyRegion.
Proof. unfold start. case_ifs; discriminate. Qed.

Lemma applyFadeIn_platform (f : Fade) (vol total : R) (tl : Timeline) :
  applyFadeIn f vol total tl <> Err EmptyRegion.
Proof.
  unfold applyFadeIn. destruct (fadeActive f); [| discriminate].
  apply bind_not_EmptyRegion; [apply setValueAtTime_platform |].
  intros g. destruct (curve f).
  - apply linearRamp_platform.
  - apply bind_not_EmptyRegion; [apply setValueAtTime_platform |].
    intros g'. apply exponentialRamp_platform.
  - apply setValueCurve_platform.
  - apply setValueCurve_platform.
Qed.

Lemma applyFadeOut_platform (f : Fade) (vol total : R) (tl : Timeline) :
  applyFadeOut f vol total tl <> Err EmptyRegion.
Proof.
  unfold applyFadeOut. destruct (fadeActive f); [| discriminate].
  destruct (curve f).
  - apply bind_not_EmptyRegion; [apply setValueAtTime_platform |].
    intros g. apply linearRamp_platform.
  - apply bind_not_EmptyRegion; [apply setValueAtTime_platform |].
    intros g. apply exponentialRamp_platform.
  - apply setValueCurve_platform.
  - apply setValueCurve_platform.
Qed.

Lemma scheduleGain_platform (b : AudioBuffer) (s : AudioEditSettings) :
  scheduleGain b s <> Err EmptyRegion.
Proof.
  unfold scheduleGain.
  apply bind_not_EmptyRegion; [apply setValueAtTime_platform |].
  intros g. apply bind_not_EmptyRegion; [apply applyFadeIn_platform |].
  intros g'. apply applyFadeOut_platform.
Qed.

Lemma existsb_insertEvent (f : AutomationEvent -> bool) (e : AutomationEvent)
  (tl : Timeline) :
  existsb f (insertEvent e tl) = f e || existsb f tl.
Proof.
  induction tl as [| x tl IH]; simpl.
  - reflexivity.
  - destruct (Rlt_dec (eventTime e) (eventTime x)); simpl.
    + reflexivity.
    + rewrite IH. destruct (f x), (f e); reflexivity.
Qed.

Ltac accepted := lra || (rewrite ?existsb_insertEvent; reflexivity).

(** Scheduling on a timeline without curves, at a time that is not negative,
    is accepted. *)
Lemma negativeTime_false (t : R) : 0 <= t -> negativeTime t = false.
Proof.
  intros H. unfold negativeTime.
  destruct (Rlt_dec t 0); [lra | reflexivity].
Qed.

Lemma setValueAtTime_Ok (v t : R) (tl : Timeline) :
  0 <= t -> existsb (insideCurve t) tl = false ->
  setValueAtTime v t tl = Ok (insertEvent (SetValue v t) tl).
Proof.
  intros Ht Hc. unfold setValueAtTime.
  rewrite (negativeTime_false t Ht), Hc. reflexivity.
Qed.

Lemma linearRamp_Ok (v t : R) (tl : Timeline) :
  0 <= t -> existsb (insideCurve t) tl = false ->
  linearRampToValueAtTime v t tl = Ok (insertEvent (LinearRamp v t) tl).
Proof.
  intros Ht Hc. unfold linearRampToValueAtTime.
  rewrite (negativeTime_false t Ht), Hc. reflexivity.
Qed.

Lemma exponentialRamp_Ok (v t : R) (tl : Timeline) :
  v <> 0 -> 0 <= t -> existsb (insideCurve t) tl = false ->
  exponentialRampToValueAtTime v t tl
  = Ok (insertEvent (ExponentialRamp v t) tl).
Proof.
  intros Hv Ht Hc. unfold exponentialRampToValueAtTime.
  destruct (Req_dec_T v 0) as [E | _]; [contradiction |].
  rewrite (negativeTime_false t Ht), Hc. reflexivity.
Qed.

Lemma exponentialRamp_zero (t : R) (tl : Timeline) :
  exponentialRampToValueAtTime 0 t tl = Err (Platform RangeError).
Proof.
  unfold exponentialRampToValueAtTime.
  destruct (Req_dec_T 0 0) as [_ | N]; [reflexivity |].
  contradiction N; reflexivity.
Qed.

Lemma start_Ok (offset dur : R) :
  0 <= offset -> 0 <= dur -> start 0 offset dur = Ok (mkPlayback offset dur).
Proof.
  intros Ho Hd. unfold start.
  rewrite !negativeTime_false by lra. reflexivity.
Qed.

Lemma fadeActive_false (f : Fade) :
  enabled f = false \/ duration f <= 0 -> fadeActive f = false.
Proof.
  intros [H | H]; unfold fadeActive.
  - rewrite H. reflexivity.
  - destruct (Rlt_dec 0 (duration f)); [lra |]. apply andb_false_r.
Qed.

Lemma fadeActive_true (f : Fade) :
  fadeActive f = true <-> enabled f = true /\ 0 < duration f.
Proof.
  unfold fadeActive. destruct (enabled f); destruct (Rlt_dec 0 (duration f));
    simpl; split; intros H; try discriminate; try tauto;
    destruct H; (contradiction || discriminate).
Qed.

(** With both fades off the gain is the single event that sets the volume. *)
Lemma scheduleGain_no_fades (b : AudioBuffer) (s : AudioEditSettings) :
  fadeActive (fadeIn s) = false -> fadeActive (fadeOut s) = false ->
  scheduleGain b s = Ok [SetValue (volume s) 0].
Proof.
  intros Hi Ho. unfold scheduleGain, applyFadeIn, applyFadeOut.
  rewrite setValueAtTime_Ok by accepted.
  rewrite bind_Ok, Hi, bind_Ok, Ho. reflexivity.
Qed.

Section RenderingFacts.

Variable interpolate : list R -> R -> R.

Lemma processAudio_empty (b : AudioBuffer) (s : AudioEditSettings) :
  (croppedLength b s <= 0)%Z -> processAudio interpolate b s = Err EmptyRegion.
Proof.
  intros H. unfold processAudio.
  destruct (Z.leb_spec (croppedLength b s) 0); [reflexivity | lia].
Qed.

Lemma processAudio_nonempty (b : AudioBuffer) (s : AudioEditSettings) :
  (0 < croppedLength b s)%Z ->
  processAudio interpolate b s =
  (gain <- scheduleGain b s ;;
   p <- start 0 (cropStart s) (cropEnd s - cropStart s) ;;
   Ok (startRendering interpolate b p gain (Z.to_nat (croppedLength b s)))).
Proof.
  intros H. unfold processAudio.
  destruct (Z.leb_spec (croppedLength b s) 0); [lia | reflexivity].
Qed.

Lemma startRendering_dimensions (b : AudioBuffer) (p : Playback)
  (gain : Timeline) (frames : nat) :
  let out := startRendering interpolate b p gain frames in
  bufferLength out = frames /\
  numberOfChannels out = numberOfChannels b /\
  sampleRate out = sampleRate b /\
  Forall (fun c => List.length c = bufferLength out) (otherChannels out).
Proof.
  cbv zeta. unfold bufferLength, numberOfChannels, channelData, startRendering.
  cbn [firstChannel otherChannels sampleRate List.length].
  unfold renderChannel. rewrite !length_map, length_seq.
  repeat split. apply Forall_forall. intros c Hc.
  apply in_map_iff in Hc. destruct Hc as (d & <- & _).
  rewrite length_map, length_seq. reflexivity.
Qed.

(** C2. The renderer fails with EmptyRegion exactly when the quantized
    length [floor (cropEnd * rate) - floor (cropStart * rate)] is not
    positive, and then returns no buffer; past that check it only chains
    platform calls, so any other failure is a platform exception. *)
Theorem processAudio_EmptyRegion_iff (b : AudioBuffer)
  (s : AudioEditSettings) :
  (processAudio interpolate b s = Err EmptyRegion <->
   (floor (cropEnd s * IZR (sampleRate b))
    - floor (cropStart s * IZR (sampleRate b)) <= 0)%Z) /\
  ((floor (cropEnd s * IZR (sampleRate b))
    - floor (cropStart s * IZR (sampleRate b)) <= 0)%Z ->
   forall out, processAudio interpolate b s <> Ok out) /\
  (forall e, processAudio interpolate b s = Err (Platform e) ->
     scheduleGain b s = Err (Platform e) \/
     start 0 (cropStart s) (cropEnd s - cropStart s) = Err (Platform e)).
Proof.
  fold (endSample b s). fold (startSample b s). fold (croppedLength b s).
  split; [split |split].
  - intros E. destruct (Z.leb_spec (croppedLength b s) 0) as [H | H];
      [exact H |].
    rewrite (processAudio_nonempty b s H) in E. exfalso. revert E.
    apply bind_not_EmptyRegion; [apply scheduleGain_platform |].
    intros g. apply bind_not_EmptyRegion; [apply start_platform |].
    intros p. discriminate.
  - apply processAudio_empty.
  - intros H out. rewrite (processAudio_empty b s H). discriminate.
  - intros e E. destruct (Z.leb_spec (croppedLength b s) 0) as [H | H].
    + rewrite (processAudio_empty b s H) in E. discriminate.
    + rewrite (processAudio_nonempty b s H) in E.
      destruct (scheduleGain b s) as [g | e1]; simpl in E.
      * destruct (start 0 (cropStart s) (cropEnd s - cropStart s))
          as [p | e2]; simpl in E; [discriminate |].
        right. injection E as ->. reflexivity.
      * left. injection E as ->. reflexivity.
Qed.

(** C1, as the code has it.  When the crop starts at or after 0, its
    quantized length is positive and the platform accepts the gain
    automation, the renderer returns a buffer of exactly
    [floor (cropEnd * rate) - floor (cropStart * rate)] frames, with the
    source's channel count and sample rate, all channels of that length. *)
Theorem processAudio_dimensions (b : AudioBuffer) (s : AudioEditSettings)
  (gain : Timeline)
  (Hstart : 0 <= cropStart s) (Hcrop : cropStart s < cropEnd s)
  (Hlen : (0 < floor (cropEnd s * IZR (sampleRate b))
               - floor (cropStart s * IZR (sampleRate b)))%Z)
  (Hgain : scheduleGain b s = Ok gain) :
  exists out,
    processAudio interpolate b s = Ok out /\
    Z.of_nat (bufferLength out)
    = (floor (cropEnd s * IZR (sampleRate b))
       - floor (cropStart s * IZR (sampleRate b)))%Z /\
    numberOfChannels out = numberOfChannels b /\
    sampleRate out = sampleRate b /\
    Forall (fun c => List.length c = bufferLength out) (otherChannels out).
Proof.
  fold (endSample b s) in *. fold (startSample b s) in *.
  fold (croppedLength b s) in *.
  rewrite (processAudio_nonempty b s Hlen), Hgain, bind_Ok.
  rewrite start_Ok by lra. rewrite bind_Ok.
  eexists. split; [reflexivity |].
  destruct (startRendering_dimensions b
              (mkPlayback (cropStart s) (cropEnd s - cropStart s)) gain
              (Z.to_nat (croppedLength b s))) as (H1 & H2 & H3 & H4).
  rewrite H1 in H4. rewrite H1. repeat split; try assumption. lia.
Qed.

End RenderingFacts.

(** *** The renderer on the sample inputs *)

Ltac floor_is z := rewrite (floor_unique _ z) by (split; simpl; lra).

Lemma croppedLength_plainCrop : croppedLength fourOnes plainCrop = 4%Z.
Proof.
  unfold croppedLength, endSample, startSample. cbn.
  floor_is 4%Z. floor_is 0%Z. reflexivity.
Qed.

Lemma croppedLength_subFrameCrop : croppedLength fourOnes subFrameCrop = 0%Z.
Proof.
  unfold croppedLength, endSample, startSample. cbn.
  floor_is 0%Z. floor_is 0%Z. reflexivity.
Qed.

Lemma croppedLength_mutedExponentialFadeIn :
  croppedLength fourOnes mutedExponentialFadeIn = 4%Z.
Proof.
  unfold croppedLength, endSample, startSample. cbn.
  floor_is 4%Z. floor_is 0%Z. reflexivity.
Qed.

Lemma processAudio_EmptyRegion_iff_witness :
  cropStart subFrameCrop < cropEnd subFrameCrop /\
  processAudio holdFrame fourOnes subFrameCrop = Err EmptyRegion.
Proof.
  split; [cbn; lra |].
  apply (proj1 (processAudio_EmptyRegion_iff holdFrame fourOnes subFrameCrop)).
  fold (endSample fourOnes subFrameCrop).
  fold (startSample fourOnes subFrameCrop).
  fold (croppedLength fourOnes subFrameCrop).
  rewrite croppedLength_subFrameCrop. lia.
Defined.

Lemma processAudio_dimensions_witness :
  exists out,
    processAudio holdFrame fourOnes plainCrop = Ok out /\
    Z.of_nat (bufferLength out) = 4%Z /\
    numberOfChannels out = 1%nat /\
    sampleRate out = 8000%Z.
Proof.
  assert (L : (floor (cropEnd plainCrop * IZR (sampleRate fourOnes))
               - floor (cropStart plainCrop * IZR (sampleRate fourOnes)))%Z
              = 4%Z) by apply croppedLength_plainCrop.
  destruct (processAudio_dimensions holdFrame fourOnes plainCrop
              [SetValue 1 0]) as (out & E & H1 & H2 & H3 & _).
  - cbn; lra.
  - cbn; lra.
  - rewrite L. lia.
  - apply scheduleGain_no_fades; reflexivity.
  - exists out. rewrite L in H1. repeat split; assumption.
Defined.

(** Two settings with [0 <= cropStart < cropEnd <= duration] for which no
    buffer is returned: a crop shorter than a frame is an EmptyRegion, and a
    muted exponential fade in is refused by the platform, the ramp's target
    being 0. *)
Lemma processAudio_valid_crop_without_buffer :
  (0 <= cropStart subFrameCrop < cropEnd subFrameCrop /\
   cropEnd subFrameCrop
   <= INR (bufferLength fourOnes) / IZR (sampleRate fourOnes)) /\
  processAudio holdFrame fourOnes subFrameCrop = Err EmptyRegion /\
  (0 <= cropStart mutedExponentialFadeIn < cropEnd mutedExponentialFadeIn /\
   cropEnd mutedExponentialFadeIn
   <= INR (bufferLength fourOnes) / IZR (sampleRate fourOnes)) /\
  processAudio holdFrame fourOnes mutedExponentialFadeIn
  = Err (Platform RangeError).
Proof.
  split; [cbn; lra |]. split.
  { apply processAudio_empty. rewrite croppedLength_subFrameCrop. lia. }
  split; [cbn; lra |].
  rewrite processAudio_nonempty
    by (rewrite croppedLength_mutedExponentialFadeIn; lia).
  unfold scheduleGain, applyFadeIn.
  rewrite setValueAtTime_Ok by accepted.
  rewrite bind_Ok.
  replace (fadeActive (fadeIn mutedExponentialFadeIn)) with true
    by (symmetry; apply fadeActive_true; cbn; split; [reflexivity | lra]).
  cbn [fadeIn mutedExponentialFadeIn curve volume].
  rewrite setValueAtTime_Ok by accepted.
  rewrite bind_Ok.
  rewrite setValueAtTime_Ok by accepted.
  rewrite bind_Ok.
  rewrite exponentialRamp_zero. reflexivity.
Qed.

(** ** The WAV writer *)

Lemma length_leBytes (n : nat) (v : Z) : List.length (leBytes n v) = n.
Proof.
  revert v. induction n as [| n IH]; intros v; simpl; [| rewrite IH];
    reflexivity.
Qed.

Lemma length_intBytes (n : nat) (v : Z) (le : bool) :
  List.length (intBytes n v le) = n.
Proof.
  unfold intBytes. destruct le; [| rewrite length_rev]; apply length_leBytes.
Qed.

Lemma skipn_repeat_zero (n k : nat) :
  skipn n (repeat 0%Z k) = repeat 0%Z (k - n).
Proof.
  revert k. induction n as [| n IH]; intros k.
  - rewrite Nat.sub_0_r. reflexivity.
  - destruct k as [| k]; [reflexivity |]. cbn [repeat skipn]. apply IH.
Qed.

(** A store that starts where the written prefix [done] ends, over bytes
    that are still zero. *)
Lemma setBytes_fill (done bytes : list Z) (k off : nat) :
  off = List.length done -> (List.length bytes <= k)%nat ->
  setBytes (done ++ repeat 0%Z k) off bytes
  = Ok ((done ++ bytes) ++ repeat 0%Z (k - List.length bytes)).
Proof.
  intros -> Hk. unfold setBytes.
  rewrite length_app, repeat_length.
  destruct (Nat.leb_spec (List.length done + List.length bytes)
                         (List.length done + k)) as [_ | H]; [| lia].
  rewrite firstn_app, Nat.sub_diag, firstn_all. cbn [firstn].
  rewrite app_nil_r.
  rewrite skipn_app, skipn_all2 by lia.
  replace (List.length done + List.length bytes - List.length done)%nat
    with (List.length bytes) by lia.
  rewrite skipn_repeat_zero. cbn [app]. rewrite <- app_assoc. reflexivity.
Qed.

(** A loop whose body stores [n] fresh bytes at the running offset. *)
Lemma forEach_fill {A : Type}
  (body : DataView * nat -> A -> result (DataView * nat))
  (emit : A -> list Z) (n : nat) :
  (forall a, List.length (emit a) = n) ->
  (forall done k a, (n <= k)%nat ->
     body (done ++ repeat 0%Z k, List.length done) a
     = Ok ((done ++ emit a) ++ repeat 0%Z (k - n),
           (List.length done + n)%nat)) ->
  forall l done k, (List.length l * n <= k)%nat ->
    forEach body l (done ++ repeat 0%Z k, List.length done)
    = Ok ((done ++ flat_map emit l) ++ repeat 0%Z (k - List.length l * n),
          (List.length done + List.length l * n)%nat).
Proof.
  intros Hlen Hbody. induction l as [| a l IH]; intros done k Hk.
  - cbn. rewrite app_nil_r, Nat.sub_0_r, Nat.add_0_r. reflexivity.
  - cbn [forEach flat_map List.length] in *.
    rewrite Hbody by lia. rewrite bind_Ok.
    replace (List.length done + n)%nat with (List.length (done ++ emit a))
      by (rewrite length_app, Hlen; reflexivity).
    rewrite IH by lia.
    rewrite length_app, Hlen.
    replace (k - n - List.length l * n)%nat
      with (k - S (List.length l) * n)%nat by lia.
    replace (List.length done + n + List.length l * n)%nat
      with (List.length done + S (List.length l) * n)%nat by lia.
    rewrite <- !app_assoc. reflexivity.
Qed.

Lemma writeSample_fill (b : AudioBuffer) (i : nat) (done : list Z)
  (k ch : nat) :
  (2 <= k)%nat ->
  writeSample b i (done ++ repeat 0%Z k, List.length done) ch
  = Ok ((done ++ sampleBytes b i ch) ++ repeat 0%Z (k - 2),
        (List.length done + 2)%nat).
Proof.
  intros Hk. unfold writeSample, setInt16. cbn [fst snd].
  fold (sampleBytes b i ch).
  rewrite setBytes_fill
    by (reflexivity || (unfold sampleBytes; rewrite length_intBytes; exact Hk)).
  unfold sampleBytes at 2. rewrite length_intBytes. reflexivity.
Qed.

Lemma length_frame_bytes (b : AudioBuffer) (i : nat) (chs : list nat) :
  List.length (flat_map (sampleBytes b i) chs) = (List.length chs * 2)%nat.
Proof.
  induction chs as [| ch chs IH]; cbn [flat_map List.length].
  - reflexivity.
  - rewrite length_app, IH. unfold sampleBytes. rewrite length_intBytes. lia.
Qed.

Lemma writeFrame_fill (b : AudioBuffer) (done : list Z) (k i : nat) :
  (numberOfChannels b * 2 <= k)%nat ->
  writeFrame b (done ++ repeat 0%Z k, List.length done) i
  = Ok ((done ++ flat_map (sampleBytes b i) (seq 0 (numberOfChannels b)))
        ++ repeat 0%Z (k - numberOfChannels b * 2),
        (List.length done + numberOfChannels b * 2)%nat).
Proof.
  intros Hk. unfold writeFrame.
  rewrite (forEach_fill (writeSample b i) (sampleBytes b i) 2).
  - rewrite length_seq. reflexivity.
  - intros ch. unfold sampleBytes. apply length_intBytes.
  - intros d k' ch Hk'. apply writeSample_fill. exact Hk'.
  - rewrite length_seq. exact Hk.
Qed.

Lemma length_frames_bytes (b : AudioBuffer) (l : list nat) :
  List.length
    (flat_map (fun i => flat_map (sampleBytes b i) (seq 0 (numberOfChannels b)))
              l)
  = (List.length l * (numberOfChannels b * 2))%nat.
Proof.
  induction l as [| i l IH]; cbn [flat_map List.length].
  - reflexivity.
  - rewrite length_app, length_frame_bytes, length_seq, IH. lia.
Qed.

Lemma length_interleavedSamples (b : AudioBuffer) :
  List.length (interleavedSamples b)
  = (bufferLength b * (numberOfChannels b * 2))%nat.
Proof.
  unfold interleavedSamples. rewrite length_frames_bytes, length_seq.
  reflexivity.
Qed.

Lemma length_wavHeader (channels : nat) (rate : Z) (frames : nat) :
  List.length (wavHeader channels rate frames) = 44%nat.
Proof.
  unfold wavHeader. cbv zeta.
  rewrite !length_app, !length_intBytes. reflexivity.
Qed.

Ltac fill_side :=
  rewrite ?length_app, ?length_intBytes; cbn [List.length]; lia.

(** C5. The writer never fails.  Its output is the 44-byte header of the
    layout table (little-endian fields: "RIFF", total size - 8, "WAVE",
    "fmt ", 16, format 1, channel count, sample rate, byte rate, block
    align, 16, "data", data size) followed by the samples frame by frame in
    channel order: [44 + frames * channels * 2] bytes in all, 44 for a
    buffer without frames. *)
Theorem audioBufferToWav_layout (b : AudioBuffer) :
  exists blob,
    audioBufferToWav b = Ok blob /\
    blobType blob = "audio/wav"%string /\
    blobBytes blob
    = wavHeader (numberOfChannels b) (sampleRate b) (bufferLength b)
      ++ interleavedSamples b /\
    List.length (wavHeader (numberOfChannels b) (sampleRate b) (bufferLength b))
    = 44%nat /\
    List.length (blobBytes blob)
    = (44 + bufferLength b * numberOfChannels b * 2)%nat /\
    (bufferLength b = 0%nat ->
     blobBytes blob = wavHeader (numberOfChannels b) (sampleRate b) 0).
Proof.
  unfold audioBufferToWav. cbv zeta.
  change (16 / 8)%nat with 2%nat.
  set (C := numberOfChannels b). set (F := bufferLength b).
  set (d := (F * (C * 2))%nat).
  change (repeat 0%Z (44 + d)) with ([] ++ repeat 0%Z (44 + d)).
  unfold setUint32, setUint16. cbn [writeString]. unfold setUint8.
  repeat (rewrite setBytes_fill by fill_side; rewrite !bind_Ok).
  match goal with
  | |- context [forEach _ _ (?done ++ repeat 0%Z ?k, _)] =>
      set (H := done); replace k with d by fill_side;
      replace 44%nat with (List.length H) at 1 by (unfold H; fill_side)
  end.
  rewrite (forEach_fill (writeFrame b)
             (fun i => flat_map (sampleBytes b i) (seq 0 C)) (C * 2)).
  - rewrite bind_Ok. cbn [fst]. eexists. split; [reflexivity |].
    cbn [blobType blobBytes].
    assert (E : (H ++ flat_map (fun i => flat_map (sampleBytes b i) (seq 0 C))
                              (seq 0 F))
                ++ repeat 0%Z (d - List.length (seq 0 F) * (C * 2))
                = wavHeader C (sampleRate b) F ++ interleavedSamples b).
    { rewrite length_seq. unfold d. rewrite Nat.sub_diag. cbn [repeat].
      rewrite app_nil_r. unfold H, wavHeader, interleavedSamples. cbv zeta.
      fold C. fold F. rewrite <- !app_assoc. reflexivity. }
    rewrite E. split; [reflexivity |]. split; [reflexivity |].
    split; [apply length_wavHeader |]. split.
    + rewrite length_app, length_wavHeader, length_interleavedSamples.
      fold C. fold F. lia.
    + intros HF. unfold interleavedSamples. fold F. rewrite HF.
      cbn [seq flat_map]. apply app_nil_r.
  - intros i. rewrite length_frame_bytes, length_seq. reflexivity.
  - intros done k i Hk. apply writeFrame_fill. exact Hk.
  - rewrite length_seq. unfold d. lia.
Qed.

(** The header of 100 stereo frames at 44.1 kHz; with the 400 sample bytes
    the container is 444 bytes long. *)
Lemma wavHeader_44100_stereo_100 :
  wavHeader 2 44100 100
  = [82; 73; 70; 70;   180; 1; 0; 0;   87; 65; 86; 69;
     102; 109; 116; 32;   16; 0; 0; 0;   1; 0;   2; 0;
     68; 172; 0; 0;   16; 177; 2; 0;   4; 0;   16; 0;
     100; 97; 116; 97;   144; 1; 0; 0]%Z.
Proof. vm_compute. reflexivity. Qed.

(** A header field holds its value exactly when the value fits the field. *)
Lemma uint_le_bytes_roundtrip (n : nat) (v : Z) :
  (0 <= v < 256 ^ Z.of_nat n)%Z -> uintOfLeBytes (intBytes n v true) = v.
Proof.
  unfold intBytes. revert v. induction n as [| n IH]; intros v Hv.
  - cbn in *. lia.
  - cbn [leBytes uintOfLeBytes fold_right].
    fold (uintOfLeBytes (leBytes n (v / 256))).
    rewrite IH.
    + Z.to_euclidean_division_equations; lia.
    + rewrite Nat2Z.inj_succ, Z.pow_succ_r in Hv by lia.
      split; [apply Z.div_pos; lia |].
      apply Z.div_lt_upper_bound; lia.
Qed.

Lemma audioBufferToWav_layout_witness :
  exists blob,
    audioBufferToWav (mkBuffer 44100 [] [[]]) = Ok blob /\
    blobBytes blob = wavHeader 2 44100 0 /\
    List.length (blobBytes blob) = 44%nat.
Proof.
  destruct (audioBufferToWav_layout (mkBuffer 44100 [] [[]]))
    as (blob & E & _ & _ & _ & L & Z0).
  exists blob. split; [exact E |]. split; [| exact L].
  apply Z0. reflexivity.
Defined.

Lemma audioBufferToWav_bytes (b : AudioBuffer) :
  audioBufferToWav b
  = Ok (mkBlob (wavHeader (numberOfChannels b) (sampleRate b) (bufferLength b)
                ++ interleavedSamples b) "audio/wav").
Proof.
  unfold audioBufferToWav. cbv zeta.
  change (16 / 8)%nat with 2%nat.
  set (C := numberOfChannels b). set (F := bufferLength b).
  set (d := (F * (C * 2))%nat).
  change (repeat 0%Z (44 + d)) with ([] ++ repeat 0%Z (44 + d)).
  unfold setUint32, setUint16. cbn [writeString]. unfold setUint8.
  repeat (rewrite setBytes_fill by fill_side; rewrite !bind_Ok).
  match goal with
  | |- context [forEach _ _ (?done ++ repeat 0%Z ?k, _)] =>
      set (H := done); replace k with d by fill_side;
      replace 44%nat with (List.length H) at 1 by (unfold H; fill_side)
  end.
  rewrite (forEach_fill (writeFrame b)
             (fun i => flat_map (sampleBytes b i) (seq 0 C)) (C * 2)).
  - rewrite bind_Ok. cbn [fst]. do 2 f_equal.
    rewrite length_seq. unfold d. rewrite Nat.sub_diag. cbn [repeat].
    rewrite app_nil_r. unfold H, wavHeader, interleavedSamples. cbv zeta.
    fold C. fold F. rewrite <- !app_assoc. reflexivity.
  - intros i. rewrite length_frame_bytes, length_seq. reflexivity.
  - intros done k i Hk. apply writeFrame_fill. exact Hk.
  - rewrite length_seq. unfold d. lia.
Qed.

(** The [i]-th chunk of a concatenation of chunks of [n] elements. *)
Lemma flat_map_chunk {A : Type} (emit : A -> list Z) (n : nat) (d : A) :
  (forall a, List.length (emit a) = n) ->
  forall (l : list A) (i : nat), (i < List.length l)%nat ->
    firstn n (skipn (i * n) (flat_map emit l)) = emit (nth i l d).
Proof.
  intros Hn. induction l as [| a l IH]; intros i Hi; cbn [List.length] in Hi.
  - lia.
  - cbn [flat_map]. destruct i as [| i].
    + cbn [Nat.mul skipn nth].
      rewrite firstn_app, Hn, Nat.sub_diag, firstn_O, app_nil_r.
      apply firstn_all2. rewrite Hn. lia.
    + cbn [nth]. rewrite skipn_app, Hn.
      rewrite skipn_all2 by (rewrite Hn; cbn; lia).
      replace (S i * n - n)%nat with (i * n)%nat by (cbn; lia).
      cbn [app]. apply IH. lia.
Qed.

Lemma firstn_skipn_firstn {A : Type} (a k m : nat) (l : list A) :
  (k + a <= m)%nat ->
  firstn a (skipn k (firstn m l)) = firstn a (skipn k l).
Proof.
  intros H. rewrite skipn_firstn_comm, firstn_firstn.
  replace (Nat.min a (m - k)) with a by lia. reflexivity.
Qed.

(** The two bytes of frame [i], channel [ch] in the sample data. *)
Lemma interleavedSamples_at (b : AudioBuffer) (i ch : nat) :
  (i < bufferLength b)%nat -> (ch < numberOfChannels b)%nat ->
  firstn 2 (skipn ((i * numberOfChannels b + ch) * 2) (interleavedSamples b))
  = sampleBytes b i ch.
Proof.
  intros Hi Hch. set (C := numberOfChannels b) in *.
  replace ((i * C + ch) * 2)%nat with (ch * 2 + i * (C * 2))%nat by lia.
  rewrite <- skipn_skipn.
  rewrite <- (firstn_skipn_firstn 2 (ch * 2) (C * 2)) by lia.
  unfold interleavedSamples. fold C.
  rewrite (flat_map_chunk (fun i => flat_map (sampleBytes b i) (seq 0 C))
             (C * 2) 0%nat)
    by (try (intros a; rewrite length_frame_bytes, length_seq; reflexivity);
        rewrite ?length_seq; assumption).
  rewrite seq_nth by exact Hi. cbn [Nat.add].
  rewrite (flat_map_chunk (sampleBytes b i) 2 0%nat)
    by (try (intros a; unfold sampleBytes; apply length_intBytes);
        rewrite ?length_seq; assumption).
  rewrite seq_nth by exact Hch. reflexivity.
Qed.

(** C6. Whatever the samples of the buffer, the one of frame [i] and
    channel [ch] is clamped to [-1, 1] and scaled by 32768 when negative and
    by 32767 otherwise; the integer the encoder writes for it lies in
    [-32768, 32767]: [writeSample] stores its two bytes at the running
    offset and touches nothing else, and in the encoder's output they are
    the bytes at offset [44 + 2 * (i * channels + ch)], which read back as
    that integer. *)
Theorem sample_quantization_in_range (b : AudioBuffer) (i ch : nat)
  (Hi : (i < bufferLength b)%nat) (Hch : (ch < numberOfChannels b)%nat) :
  let sample := getChannelData b ch i in
  let clamped := clampSample sample in
  let int16 := scaleSample clamped in
  -1 <= clamped <= 1 /\
  clamped = (if Rlt_dec sample (-1) then -1
             else if Rlt_dec 1 sample then 1 else sample) /\
  int16 = (if Rlt_dec clamped 0 then clamped * 32768 else clamped * 32767) /\
  -32768 <= int16 <= 32767 /\
  (-32768 <= trunc int16 <= 32767)%Z /\
  (forall (view : DataView) (offset : nat),
     (offset + 2 <= List.length view)%nat ->
     writeSample b i (view, offset) ch
     = Ok (firstn offset view ++ intBytes 2 (trunc int16) true
           ++ skipn (offset + 2) view, (offset + 2)%nat)) /\
  exists blob,
    audioBufferToWav b = Ok blob /\
    firstn 2 (skipn (44 + (i * numberOfChannels b + ch) * 2) (blobBytes blob))
    = intBytes 2 (trunc int16) true /\
    int16OfLeBytes
      (firstn 2 (skipn (44 + (i * numberOfChannels b + ch) * 2)
                       (blobBytes blob)))
    = trunc int16.
Proof.
  cbv zeta.
  pose proof (clampSample_range (getChannelData b ch i)) as Hc.
  pose proof (scaleSample_range _ Hc) as Hs.
  pose proof (trunc_int16_range _ Hs) as Ht.
  split; [exact Hc |]. split; [apply clampSample_cases |].
  split; [reflexivity |]. split; [exact Hs |]. split; [exact Ht |].
  split.
  - intros view offset Hfit. unfold writeSample, setInt16, setBytes.
    cbn [fst snd]. rewrite length_intBytes.
    destruct (Nat.leb_spec (offset + 2) (List.length view)) as [_ | H];
      [reflexivity | lia].
  - eexists. split; [apply audioBufferToWav_bytes |]. cbn [blobBytes].
    assert (E : firstn 2 (skipn (44 + (i * numberOfChannels b + ch) * 2)
                            (wavHeader (numberOfChannels b) (sampleRate b)
                                       (bufferLength b)
                             ++ interleavedSamples b))
                = sampleBytes b i ch).
    { rewrite skipn_app, length_wavHeader.
      rewrite skipn_all2 by (rewrite length_wavHeader; lia).
      replace (44 + (i * numberOfChannels b + ch) * 2 - 44)%nat
        with ((i * numberOfChannels b + ch) * 2)%nat by lia.
      cbn [app]. apply interleavedSamples_at; assumption. }
    rewrite E. split; [reflexivity |].
    apply int16_bytes_roundtrip. exact Ht.
Qed.

Lemma sample_quantization_in_range_witness :
  exists blob,
    audioBufferToWav (mkBuffer 8000 [0.5; -3] [[1; 0.25]]) = Ok blob /\
    int16OfLeBytes (firstn 2 (skipn 48 (blobBytes blob)))
    = trunc (scaleSample (clampSample (-3))) /\
    (-32768 <= trunc (scaleSample (clampSample (-3))) <= 32767)%Z.
Proof.
  destruct (sample_quantization_in_range
              (mkBuffer 8000 [0.5; -3] [[1; 0.25]]) 1 0)
    as (_ & _ & _ & _ & R & _ & blob & E & _ & S).
  - cbn. lia.
  - cbn. lia.
  - exists blob. split; [exact E |]. split; [exact S | exact R].
Defined.

(** ** The automation timeline *)

(** Case analysis on the comparisons of reals that the goal branches on. *)
Ltac real_cases :=
  repeat (match goal with
          | |- context [Rlt_dec ?a ?b] =>
              destruct (Rlt_dec a b); try (exfalso; lra)
          | |- context [Rle_dec ?a ?b] =>
              destruct (Rle_dec a b); try (exfalso; lra)
          | |- context [Req_dec_T ?a ?b] =>
              destruct (Req_dec_T a b); try (exfalso; lra)
          end;
          unfold negativeTime, strictlyWithin;
          cbn [valueFrom eventTime insertEvent existsb insideCurve
               bind orb andb]).


(** An event appended in time order goes to the end. *)
Lemma insertEvent_last (e : AutomationEvent) (tl : Timeline) :
  Forall (fun x => eventTime x <= eventTime e) tl ->
  insertEvent e tl = tl ++ [e].
Proof.
  induction 1 as [| x tl Hx _ IH]; simpl.
  - reflexivity.
  - destruct (Rlt_dec (eventTime e) (eventTime x)); [lra |].
    rewrite IH. reflexivity.
Qed.

Lemma doneBy_mono (t t' : R) (e : AutomationEvent) :
  t <= t' -> doneBy t e -> doneBy t' e.
Proof.
  intros Ht [H1 H2]. split; [lra |]. destruct e; try exact I. lra.
Qed.

Lemma doneBy_not_insideCurve (t t' : R) (tl : Timeline) :
  t <= t' -> Forall (doneBy t) tl -> existsb (insideCurve t') tl = false.
Proof.
  intros Ht. induction 1 as [| x tl [H1 H2] _ IH]; simpl.
  - reflexivity.
  - rewrite IH, orb_false_r. destruct x; cbn in *; try reflexivity.
    destruct (Rle_dec startTime t'); [| reflexivity].
    destruct (Rlt_dec t' (startTime + dur)); [lra | reflexivity].
Qed.

Lemma doneBy_not_strictlyWithin (t d : R) (tl : Timeline) :
  Forall (doneBy t) tl -> existsb (strictlyWithin t d) tl = false.
Proof.
  induction 1 as [| x tl [H1 H2] _ IH]; simpl.
  - reflexivity.
  - rewrite IH, orb_false_r. unfold strictlyWithin.
    destruct (Rlt_dec t (eventTime x)); [lra | reflexivity].
Qed.

Lemma doneBy_before (t : R) (e : AutomationEvent) (tl : Timeline) :
  t <= eventTime e -> Forall (doneBy t) tl ->
  Forall (fun x => eventTime x <= eventTime e) tl.
Proof.
  intros Ht H. eapply Forall_impl; [| exact H].
  intros x [H1 _]. cbn. lra.
Qed.

(** Before such an event the value is that of the events in front of it. *)
Lemma valueFrom_before (e : AutomationEvent) (rest : Timeline) (t : R) :
  resets e -> t < eventTime e ->
  forall pre v0 t0,
    valueFrom v0 t0 (pre ++ e :: rest) t = valueFrom v0 t0 pre t.
Proof.
  intros He Ht. induction pre as [| x pre IH]; intros v0 t0.
  - destruct e; cbn in *; try contradiction;
      destruct (Rlt_dec t _); try lra; reflexivity.
  - cbn. destruct (Rlt_dec t (eventTime x)); [reflexivity |].
    destruct x; try apply IH.
    destruct (Rlt_dec t (startTime + dur)); [reflexivity | apply IH].
Qed.

(** Scheduling after events that are over: accepted, and appended. *)
Lemma setValueAtTime_after (tl : Timeline) (v t : R) :
  0 <= t -> Forall (doneBy t) tl ->
  setValueAtTime v t tl = Ok (tl ++ [SetValue v t]).
Proof.
  intros Ht H. rewrite setValueAtTime_Ok.
  - rewrite insertEvent_last; [reflexivity |].
    apply (doneBy_before t); [cbn; lra | exact H].
  - exact Ht.
  - apply (doneBy_not_insideCurve t); [lra | exact H].
Qed.

Lemma linearRamp_after (tl : Timeline) (v t : R) :
  0 <= t -> Forall (doneBy t) tl ->
  linearRampToValueAtTime v t tl = Ok (tl ++ [LinearRamp v t]).
Proof.
  intros Ht H. rewrite linearRamp_Ok.
  - rewrite insertEvent_last; [reflexivity |].
    apply (doneBy_before t); [cbn; lra | exact H].
  - exact Ht.
  - apply (doneBy_not_insideCurve t); [lra | exact H].
Qed.

Lemma exponentialRamp_after (tl : Timeline) (v t : R) :
  v <> 0 -> 0 <= t -> Forall (doneBy t) tl ->
  exponentialRampToValueAtTime v t tl = Ok (tl ++ [ExponentialRamp v t]).
Proof.
  intros Hv Ht H. rewrite exponentialRamp_Ok.
  - rewrite insertEvent_last; [reflexivity |].
    apply (doneBy_before t); [cbn; lra | exact H].
  - exact Hv.
  - exact Ht.
  - apply (doneBy_not_insideCurve t); [lra | exact H].
Qed.

Lemma setValueCurve_after (tl : Timeline) (vs : list R) (t d : R) :
  (2 <= List.length vs)%nat -> 0 <= t -> 0 < d -> Forall (doneBy t) tl ->
  setValueCurveAtTime vs t d tl = Ok (tl ++ [SetValueCurve vs t d]).
Proof.
  intros Hl Ht Hd H. unfold setValueCurveAtTime.
  destruct (Nat.ltb_spec (List.length vs) 2); [lia |].
  rewrite (negativeTime_false t Ht).
  destruct (Rle_dec d 0); [lra |].
  rewrite (doneBy_not_insideCurve t t tl) by (lra || exact H).
  rewrite (doneBy_not_strictlyWithin t d tl H). cbn [orb].
  rewrite insertEvent_last; [reflexivity |].
  apply (doneBy_before t); [cbn; lra | exact H].
Qed.

(** *** The sampled curves *)

Lemma length_fadeInCurveValues (c : EaseCurve) (v : R) :
  List.length (fadeInCurveValues c v) = 100%nat.
Proof.
  unfold fadeInCurveValues. rewrite length_map, length_seq. reflexivity.
Qed.

Lemma length_fadeOutCurveValues (c : EaseCurve) (v : R) :
  List.length (fadeOutCurveValues c v) = 100%nat.
Proof.
  unfold fadeOutCurveValues. rewrite length_map, length_seq. reflexivity.
Qed.

Lemma nth_fadeInCurveValues (c : EaseCurve) (v : R) (k : nat) :
  (k < 100)%nat ->
  nth k (fadeInCurveValues c v) 0 = applyEaseCurve (INR k / 99) c * v.
Proof.
  intros Hk. unfold fadeInCurveValues.
  set (f := fun i : nat => _).
  rewrite (nth_indep _ 0 (f 0%nat))
    by (rewrite length_map, length_seq; exact Hk).
  rewrite (map_nth f), seq_nth by exact Hk. unfold f.
  change (steps - 1)%nat with 99%nat. rewrite (INR_IZR_INZ 99).
  reflexivity.
Qed.

Lemma nth_fadeOutCurveValues (c : EaseCurve) (v : R) (k : nat) :
  (k < 100)%nat ->
  nth k (fadeOutCurveValues c v) 0 = applyEaseCurve (1 - INR k / 99) c * v.
Proof.
  intros Hk. unfold fadeOutCurveValues.
  set (f := fun i : nat => _).
  rewrite (nth_indep _ 0 (f 0%nat))
    by (rewrite length_map, length_seq; exact Hk).
  rewrite (map_nth f), seq_nth by exact Hk. unfold f.
  change (steps - 1)%nat with 99%nat. rewrite (INR_IZR_INZ 99).
  reflexivity.
Qed.

(** A fade-in curve ends on the volume. *)
Lemma last_fadeInCurveValues (c : EaseCurve) (v : R) :
  last (fadeInCurveValues c v) 0 = v.
Proof.
  unfold fadeInCurveValues. change steps with (S 99).
  rewrite seq_S, map_app. cbn [map]. rewrite last_last, Nat.add_0_l.
  change (S 99 - 1)%nat with 99%nat.
  replace (INR 99 / INR 99) with 1 by (field; apply not_0_INR; discriminate).
  rewrite applyEaseCurve_1. ring.
Qed.



(** *** The events of the two fades *)

Ltac done_by :=
  repeat (apply Forall_cons || apply Forall_nil);
  (split; cbn; try exact I; lra).

Section FadeEvents.

Variables (V T : R).
Hypothesis HT : 0 < T.

Lemma fadeDuration_bounds (f : Fade) :
  fadeActive f = true ->
  0 < Rmin (duration f) T <= T.
Proof.
  intros H. apply fadeActive_true in H. destruct H as [_ Hd].
  split; [apply Rmin_pos; assumption | apply Rmin_r].
Qed.

(** The volume event and the fade in are over once the fade-in window is. *)
Lemma fadeIn_doneBy (f : Fade) (t : R) :
  0 <= t -> (fadeActive f = true -> Rmin (duration f) T <= t) ->
  Forall (doneBy t) (SetValue V 0 :: fadeInEvents f V T).
Proof.
  intros Ht Hw. unfold fadeInEvents.
  destruct (fadeActive f) eqn:A; [| done_by].
  specialize (Hw eq_refl). destruct (curve f); done_by.
Qed.

Lemma applyFadeIn_Ok (f : Fade) :
  (fadeActive f = true -> curve f = exponential -> V <> 0) ->
  applyFadeIn f V T [SetValue V 0] = Ok (SetValue V 0 :: fadeInEvents f V T).
Proof.
  intros HV. unfold applyFadeIn, fadeInEvents.
  destruct (fadeActive f) eqn:A; [| reflexivity].
  destruct (fadeDuration_bounds f A) as [Hd0 HdT].
  specialize (HV eq_refl).
  rewrite setValueAtTime_after by (lra || done_by). rewrite bind_Ok.
  destruct (curve f); cbn [app].
  - rewrite linearRamp_after by (lra || done_by). reflexivity.
  - rewrite setValueAtTime_after by (lra || done_by). rewrite bind_Ok.
    rewrite exponentialRamp_after by (auto || lra || done_by). reflexivity.
  - rewrite setValueCurve_after
      by (rewrite ?length_fadeInCurveValues; (lia || lra || done_by)).
    reflexivity.
  - rewrite setValueCurve_after
      by (rewrite ?length_fadeInCurveValues; (lia || lra || done_by)).
    reflexivity.
Qed.

Lemma applyFadeOut_after (f : Fade) (pre : Timeline) :
  (fadeActive f = true ->
   Forall (doneBy (T - Rmin (duration f) T)) pre) ->
  applyFadeOut f V T pre = Ok (pre ++ fadeOutEvents f V T).
Proof.
  intros Hpre. unfold applyFadeOut, fadeOutEvents.
  destruct (fadeActive f) eqn:A; [| rewrite app_nil_r; reflexivity].
  destruct (fadeDuration_bounds f A) as [Hd0 HdT].
  specialize (Hpre eq_refl). cbv zeta.
  set (d := Rmin (duration f) T) in *.
  assert (Hpre' : Forall (doneBy T) (pre ++ [SetValue V (T - d)])).
  { apply Forall_app. split.
    - eapply Forall_impl; [| exact Hpre].
      intros e. apply doneBy_mono. lra.
    - done_by. }
  destruct (curve f).
  - rewrite setValueAtTime_after by (lra || assumption). rewrite bind_Ok.
    rewrite linearRamp_after by (lra || assumption).
    rewrite <- app_assoc. reflexivity.
  - rewrite setValueAtTime_after by (lra || assumption). rewrite bind_Ok.
    rewrite exponentialRamp_after by (lra || assumption).
    rewrite <- app_assoc. reflexivity.
  - rewrite setValueCurve_after
      by (rewrite ?length_fadeOutCurveValues; (lia || lra || assumption)).
    reflexivity.
  - rewrite setValueCurve_after
      by (rewrite ?length_fadeOutCurveValues; (lia || lra || assumption)).
    reflexivity.
Qed.

(** The fade out starts with an event that sets the value on its own, at
    the start of the fade-out window. *)
Lemma fadeOutEvents_head (f : Fade) :
  fadeActive f = true ->
  exists e rest,
    fadeOutEvents f V T = e :: rest /\ resets e /\
    eventTime e = T - Rmin (duration f) T.
Proof.
  intros A. unfold fadeOutEvents. rewrite A.
  destruct (curve f); eexists; eexists; (split; [reflexivity |]);
    split; exact I || reflexivity.
Qed.

(** Before the fade-out window the gain of a lone fade out is the volume. *)
Lemma fadeOut_waiting (f : Fade) (t : R) :
  0 <= t -> (fadeActive f = true -> t < T - Rmin (duration f) T) ->
  valueAtTime (SetValue V 0 :: fadeOutEvents f V T) t = V.
Proof.
  intros Ht Hw. unfold valueAtTime.
  destruct (fadeActive f) eqn:A.
  - destruct (fadeOutEvents_head f A) as (e & rest & E & He & Hte).
    rewrite E.
    change (SetValue V 0 :: e :: rest) with ([SetValue V 0] ++ e :: rest).
    rewrite valueFrom_before by (assumption || (rewrite Hte; auto)).
    cbn. destruct (Rlt_dec t 0); [lra | reflexivity].
  - unfold fadeOutEvents. rewrite A. cbn.
    destruct (Rlt_dec t 0); [lra | reflexivity].
Qed.

End FadeEvents.

(** *** The whole automation *)

Lemma fadeInEvents_inactive (f : Fade) (V T : R) :
  fadeActive f = false -> fadeInEvents f V T = [].
Proof. intros H. unfold fadeInEvents. rewrite H. reflexivity. Qed.

Lemma fadeOutEvents_inactive (f : Fade) (V T : R) :
  fadeActive f = false -> fadeOutEvents f V T = [].
Proof. intros H. unfold fadeOutEvents. rewrite H. reflexivity. Qed.

(** Fade windows that are apart: the platform accepts every call, and the
    timeline is the calls in order. *)
Lemma scheduleGain_disjoint (b : AudioBuffer) (s : AudioEditSettings) :
  0 < totalDuration b s -> audibleExponentialFadeIn s -> disjointFades b s ->
  scheduleGain b s
  = Ok (SetValue (volume s) 0
        :: fadeInEvents (fadeIn s) (volume s) (totalDuration b s)
           ++ fadeOutEvents (fadeOut s) (volume s) (totalDuration b s)).
Proof.
  intros HT Hexp Hdis. unfold scheduleGain. cbv zeta.
  fold (totalDuration b s). set (T := totalDuration b s) in *.
  rewrite (setValueAtTime_after [] (volume s) 0) by (lra || constructor).
  rewrite bind_Ok. cbn [app].
  rewrite (applyFadeIn_Ok (volume s) T HT (fadeIn s) Hexp), bind_Ok.
  rewrite applyFadeOut_after; [reflexivity | exact HT |].
  intros Aout. destruct (fadeDuration_bounds T HT _ Aout) as [Hd0 HdT].
  apply fadeIn_doneBy; [lra |].
  intros Ain. specialize (Hdis Ain Aout). fold T in Hdis. lra.
Qed.


(** ** The rendered samples *)

Lemma totalDuration_pos (b : AudioBuffer) (s : AudioEditSettings) :
  (0 < sampleRate b)%Z -> (0 < croppedLength b s)%Z -> 0 < totalDuration b s.
Proof.
  intros Hr Hl. unfold totalDuration.
  apply Rdiv_lt_0_compat; apply IZR_lt; assumption.
Qed.

Lemma frame_time_bounds (b : AudioBuffer) (s : AudioEditSettings) (i : nat) :
  (0 < sampleRate b)%Z -> (i < Z.to_nat (croppedLength b s))%nat ->
  0 <= INR i / IZR (sampleRate b) < totalDuration b s.
Proof.
  intros Hr Hi. unfold totalDuration.
  assert (Hr' : 0 < IZR (sampleRate b)) by (apply IZR_lt; exact Hr).
  assert (H0 : 0 <= INR i) by apply pos_INR.
  assert (H1 : INR i < IZR (croppedLength b s)).
  { rewrite INR_IZR_INZ. apply IZR_lt. lia. }
  split.
  - apply Rmult_le_pos; [exact H0 |]. apply Rlt_le, Rinv_0_lt_compat, Hr'.
  - apply Rmult_lt_compat_r; [apply Rinv_0_lt_compat, Hr' | exact H1].
Qed.

Lemma crop_positive (b : AudioBuffer) (s : AudioEditSettings) :
  (0 < sampleRate b)%Z -> (0 < croppedLength b s)%Z ->
  cropStart s < cropEnd s.
Proof.
  intros Hr Hl. unfold croppedLength, endSample, startSample in Hl.
  assert (Hr' : 0 < IZR (sampleRate b)) by (apply IZR_lt; exact Hr).
  destruct (floor_bounds (cropEnd s * IZR (sampleRate b))) as [He _].
  destruct (floor_bounds (cropStart s * IZR (sampleRate b))) as [_ Hs].
  assert (H : IZR (floor (cropStart s * IZR (sampleRate b))) + 1
              <= IZR (floor (cropEnd s * IZR (sampleRate b)))).
  { rewrite <- succ_IZR. apply IZR_le. lia. }
  nra.
Qed.

Section RenderedSamples.

Variable interpolate : list R -> R -> R.

Lemma getChannelData_startRendering (b : AudioBuffer) (p : Playback)
  (gain : Timeline) (frames ch i : nat) :
  (ch < numberOfChannels b)%nat -> (i < frames)%nat ->
  getChannelData (startRendering interpolate b p gain frames) ch i
  = sourceFrame interpolate (nth ch (channelData b) []) p (sampleRate b) i
    * valueAtTime gain (INR i / IZR (sampleRate b)).
Proof.
  intros Hch Hi. unfold getChannelData.
  assert (E : channelData (startRendering interpolate b p gain frames)
              = map (fun data => renderChannel interpolate data p gain
                                   (sampleRate b) frames)
                    (channelData b)) by reflexivity.
  rewrite E.
  rewrite (nth_indep _ [] (renderChannel interpolate [] p gain (sampleRate b)
                             frames))
    by (rewrite length_map; exact Hch).
  rewrite (map_nth (fun data => renderChannel interpolate data p gain
                                  (sampleRate b) frames)).
  unfold renderChannel.
  set (f := fun i0 : nat => _).
  rewrite (nth_indep _ 0 (f 0%nat))
    by (rewrite length_map, length_seq; exact Hi).
  rewrite (map_nth f), seq_nth by exact Hi. reflexivity.
Qed.

(** From a crop start on a frame boundary the source plays the frames
    [startSample + i] themselves. *)
Lemma sourceFrame_aligned (data : list R) (s e : R) (rate k : Z) (i : nat) :
  IZR k = s * IZR rate -> (0 <= k)%Z ->
  (Z.of_nat i < floor (e * IZR rate) - k)%Z ->
  sourceFrame interpolate data (mkPlayback s (e - s)) rate i
  = nth (Z.to_nat k + i) data 0.
Proof.
  intros Hk Hk0 Hi. unfold sourceFrame. cbn [playOffset playDuration].
  rewrite <- Hk, INR_IZR_INZ, <- plus_IZR.
  replace ((s + (e - s)) * IZR rate) with (e * IZR rate) by ring.
  destruct (floor_bounds (e * IZR rate)) as [He _].
  assert (H1 : IZR (k + Z.of_nat i) + 1 <= IZR (floor (e * IZR rate))).
  { rewrite <- succ_IZR. apply IZR_le. lia. }
  destruct (Rlt_dec (IZR (k + Z.of_nat i)) (e * IZR rate)); [| lra].
  replace (Z.to_nat k + i)%nat with (Z.to_nat (k + Z.of_nat i)) by lia.
  destruct (Rlt_dec (IZR (k + Z.of_nat i)) (INR (List.length data)))
    as [Hin | Hout].
  - unfold playbackSignal. rewrite floor_IZR.
    destruct (Req_dec_T (IZR (k + Z.of_nat i)) (IZR (k + Z.of_nat i)));
      [reflexivity | contradiction].
  - symmetry. apply nth_overflow.
    rewrite INR_IZR_INZ in Hout.
    assert (Z.of_nat (List.length data) <= k + Z.of_nat i)%Z
      by (apply le_IZR; lra).
    lia.
Qed.


End RenderedSamples.

(** ** The renderer on the sample inputs, continued *)

Ltac schedule_unfold :=
  unfold scheduleGain, applyFadeIn, applyFadeOut, fadeActive,
    setValueAtTime, linearRampToValueAtTime, exponentialRampToValueAtTime,
    setValueCurveAtTime, negativeTime, strictlyWithin;
  cbn [volume fadeIn fadeOut enabled duration curve sampleRate
       valueFrom eventTime insertEvent existsb insideCurve
       bind orb andb].

Lemma croppedLength_whole (s : AudioEditSettings) :
  cropStart s = 0 -> cropEnd s = 0.0005 -> croppedLength fourOnes s = 4%Z.
Proof.
  intros Hs He. unfold croppedLength, endSample, startSample.
  rewrite Hs, He. cbn [sampleRate fourOnes].
  floor_is 4%Z. floor_is 0%Z. reflexivity.
Qed.

Lemma totalDuration_whole (s : AudioEditSettings) :
  cropStart s = 0 -> cropEnd s = 0.0005 -> totalDuration fourOnes s = 0.0005.
Proof.
  intros Hs He. unfold totalDuration. rewrite (croppedLength_whole s Hs He).
  cbn [sampleRate fourOnes]. lra.
Qed.

Lemma scheduleGain_overlappingFades :
  scheduleGain fourOnes overlappingFades
  = Ok [SetValue 1 0; SetValue 0 0; SetValue 1 0.000125;
        LinearRamp 1 0.000375; LinearRamp 0 0.0005].
Proof.
  unfold scheduleGain.
  rewrite (croppedLength_whole overlappingFades eq_refl eq_refl).
  unfold overlappingFades, fourOnes. schedule_unfold.
  replace (IZR 4 / IZR 8000) with 0.0005 by lra.
  rewrite !(Rmin_left 0.000375 0.0005) by lra.
  replace (0.0005 - 0.000375) with 0.000125 by lra.
  real_cases. reflexivity.
Qed.










(** The end-to-end scenario on the four frames: the gain starts at 0,
    reaches the volume 0.5 at the end of the fade in and stays there. *)
Lemma gainAt_halfVolumeFadeIn :
  gainAt fourOnes halfVolumeFadeIn 0 = 0 /\
  gainAt fourOnes halfVolumeFadeIn 0.000125 = 0.25 /\
  gainAt fourOnes halfVolumeFadeIn 0.00025 = 0.5 /\
  gainAt fourOnes halfVolumeFadeIn 0.000375 = 0.5.
Proof.
  assert (E : scheduleGain fourOnes halfVolumeFadeIn
              = Ok [SetValue 0.5 0; SetValue 0 0; LinearRamp 0.5 0.00025]).
  { unfold scheduleGain.
    rewrite (croppedLength_whole halfVolumeFadeIn eq_refl eq_refl).
    unfold halfVolumeFadeIn, noFade, fourOnes. schedule_unfold.
    replace (IZR 4 / IZR 8000) with 0.0005 by lra.
    rewrite !(Rmin_left 0.00025 0.0005) by lra.
    real_cases. reflexivity. }
  unfold gainAt. rewrite E. unfold valueAtTime.
  repeat split; cbn [valueFrom eventTime]; real_cases; lra.
Qed.

(** ** Boundary values of the fades *)










(** ** Fades without duration *)

Lemma applyFadeIn_inactive (f : Fade) (V T : R) (tl : Timeline) :
  fadeActive f = false -> applyFadeIn f V T tl = Ok tl.
Proof. intros H. unfold applyFadeIn. rewrite H. reflexivity. Qed.

Lemma applyFadeOut_inactive (f : Fade) (V T : R) (tl : Timeline) :
  fadeActive f = false -> applyFadeOut f V T tl = Ok tl.
Proof. intros H. unfold applyFadeOut. rewrite H. reflexivity. Qed.

Lemma scheduleGain_withoutFadeIn (b : AudioBuffer) (s : AudioEditSettings) :
  fadeActive (fadeIn s) = false ->
  scheduleGain b (withoutFadeIn s) = scheduleGain b s.
Proof.
  intros H. unfold scheduleGain.
  change (croppedLength b (withoutFadeIn s)) with (croppedLength b s).
  cbn [volume fadeIn fadeOut withoutFadeIn].
  destruct (setValueAtTime (volume s) 0 []) as [g |]; [| reflexivity].
  rewrite !bind_Ok.
  rewrite !applyFadeIn_inactive by (exact H || reflexivity). reflexivity.
Qed.

Lemma scheduleGain_withoutFadeOut (b : AudioBuffer) (s : AudioEditSettings) :
  fadeActive (fadeOut s) = false ->
  scheduleGain b (withoutFadeOut s) = scheduleGain b s.
Proof.
  intros H. unfold scheduleGain.
  change (croppedLength b (withoutFadeOut s)) with (croppedLength b s).
  cbn [volume fadeIn fadeOut withoutFadeOut].
  destruct (setValueAtTime (volume s) 0 []) as [g |]; [| reflexivity].
  rewrite !bind_Ok.
  destruct (applyFadeIn _ _ _ g) as [g' |]; [| reflexivity].
  rewrite !bind_Ok.
  rewrite !applyFadeOut_inactive by (exact H || reflexivity). reflexivity.
Qed.

Lemma valueAtTime_volume_only (V t : R) :
  0 <= t -> valueAtTime [SetValue V 0] t = V.
Proof.
  intros Ht. unfold valueAtTime. cbn.
  destruct (Rlt_dec t 0); [lra | reflexivity].
Qed.

Section ZeroDurationFades.

Variable interpolate : list R -> R -> R.

(** C10. A fade that is enabled with a duration of 0 or less is rendered as
    if it were disabled; when neither fade has a positive duration (or is
    enabled) the gain is the volume alone, at every frame of the region. *)
Theorem zero_duration_fade_is_disabled (b : AudioBuffer)
  (s : AudioEditSettings) :
  (enabled (fadeIn s) = true -> duration (fadeIn s) <= 0 ->
   processAudio interpolate b s = processAudio interpolate b (withoutFadeIn s))
  /\
  (enabled (fadeOut s) = true -> duration (fadeOut s) <= 0 ->
   processAudio interpolate b s = processAudio interpolate b (withoutFadeOut s))
  /\
  (enabled (fadeIn s) = false \/ duration (fadeIn s) <= 0 ->
   enabled (fadeOut s) = false \/ duration (fadeOut s) <= 0 ->
   (0 < sampleRate b)%Z -> 0 <= cropStart s -> (0 < croppedLength b s)%Z ->
   scheduleGain b s = Ok [SetValue (volume s) 0] /\
   exists out,
     processAudio interpolate b s = Ok out /\
     forall ch i,
       (ch < numberOfChannels b)%nat ->
       (i < Z.to_nat (croppedLength b s))%nat ->
       getChannelData out ch i
       = sourceFrame interpolate (nth ch (channelData b) [])
           (mkPlayback (cropStart s) (cropEnd s - cropStart s))
           (sampleRate b) i
         * volume s).
Proof.
  split; [| split].
  - intros _ Hd. unfold processAudio.
    change (croppedLength b (withoutFadeIn s)) with (croppedLength b s).
    rewrite scheduleGain_withoutFadeIn
      by (apply fadeActive_false; right; exact Hd).
    reflexivity.
  - intros _ Hd. unfold processAudio.
    change (croppedLength b (withoutFadeOut s)) with (croppedLength b s).
    rewrite scheduleGain_withoutFadeOut
      by (apply fadeActive_false; right; exact Hd).
    reflexivity.
  - intros Hin Hout Hrate Hstart Hlen.
    pose proof (scheduleGain_no_fades b s (fadeActive_false _ Hin)
                  (fadeActive_false _ Hout)) as E.
    split; [exact E |].
    pose proof (crop_positive b s Hrate Hlen) as Hcrop.
    rewrite (processAudio_nonempty interpolate b s Hlen), E, bind_Ok.
    rewrite start_Ok by lra. rewrite bind_Ok.
    eexists. split; [reflexivity |].
    intros ch i Hch Hi.
    rewrite getChannelData_startRendering by assumption.
    rewrite valueAtTime_volume_only; [reflexivity |].
    apply (frame_time_bounds b s i Hrate Hi).
Qed.

End ZeroDurationFades.

Lemma zero_duration_fade_is_disabled_witness :
  processAudio holdFrame fourOnes zeroDurationFadeIn
  = processAudio holdFrame fourOnes (withoutFadeIn zeroDurationFadeIn) /\
  scheduleGain fourOnes zeroDurationFadeIn = Ok [SetValue 0.5 0].
Proof.
  destruct (zero_duration_fade_is_disabled holdFrame fourOnes
              zeroDurationFadeIn) as (A & _ & C).
  split.
  - apply A; [reflexivity | cbn; lra].
  - apply C.
    + right. cbn. lra.
    + left. reflexivity.
    + reflexivity.
    + cbn. lra.
    + rewrite croppedLength_whole by reflexivity. lia.
Defined.

(** * Further properties *)

(** ** The renderer with neutral settings *)

Lemma map_nth_firstn (l : list R) (n : nat) :
  (n <= List.length l)%nat ->
  map (fun i => nth i l 0) (seq 0 n) = firstn n l.
Proof.
  intros Hn. apply (nth_ext _ _ 0 0).
  - rewrite length_map, length_seq, length_firstn. lia.
  - intros i Hi. rewrite length_map, length_seq in Hi.
    rewrite (nth_indep _ 0 ((fun i => nth i l 0) 0%nat))
      by (rewrite length_map, length_seq; exact Hi).
    rewrite (map_nth (fun i => nth i l 0)), seq_nth by exact Hi.
    rewrite nth_firstn.
    destruct (Nat.ltb_spec i n); [reflexivity | lia].
Qed.

Section NeutralRender.

Variable interpolate : list R -> R -> R.

Lemma renderChannel_prefix (data : list R) (e : R) (rate : Z) (n : nat) :
  0 < IZR rate -> (Z.of_nat n <= floor (e * IZR rate))%Z ->
  (n <= List.length data)%nat ->
  renderChannel interpolate data (mkPlayback 0 (e - 0)) [SetValue 1 0] rate n
  = firstn n data.
Proof.
  intros Hr He Hn. unfold renderChannel.
  rewrite <- (map_nth_firstn data n Hn).
  apply map_ext_in. intros i Hi. apply in_seq in Hi.
  rewrite (sourceFrame_aligned interpolate data 0 e rate 0%Z i)
    by (lia || (cbn; lra)).
  rewrite valueAtTime_volume_only.
  - cbn [Z.to_nat Nat.add]. ring.
  - apply Rmult_le_pos; [apply pos_INR |].
    apply Rlt_le, Rinv_0_lt_compat, Hr.
Qed.

(** With a crop from 0, volume 1 and no fade applied, the renderer returns
    the first [endSample] frames of every channel unchanged; it returns the
    buffer itself when the end of the crop quantizes to the buffer's
    length. *)
Theorem processAudio_neutral_is_prefix (b : AudioBuffer)
  (s : AudioEditSettings)
  (Hrate : (0 < sampleRate b)%Z)
  (Hwf : Forall (fun c => List.length c = bufferLength b) (otherChannels b))
  (Hstart : cropStart s = 0)
  (Hend : (0 < endSample b s <= Z.of_nat (bufferLength b))%Z)
  (Hvol : volume s = 1)
  (Hin : fadeActive (fadeIn s) = false)
  (Hout : fadeActive (fadeOut s) = false) :
  let n := Z.to_nat (endSample b s) in
  processAudio interpolate b s
  = Ok (mkBuffer (sampleRate b) (firstn n (firstChannel b))
                 (map (firstn n) (otherChannels b))) /\
  (endSample b s = Z.of_nat (bufferLength b) ->
   processAudio interpolate b s = Ok b).
Proof.
  cbv zeta.
  assert (Hr' : 0 < IZR (sampleRate b)) by (apply IZR_lt; exact Hrate).
  assert (Hs : startSample b s = 0%Z).
  { unfold startSample. rewrite Hstart, Rmult_0_l. apply floor_IZR. }
  assert (Hcl : croppedLength b s = endSample b s)
    by (unfold croppedLength; rewrite Hs; lia).
  assert (Hcrop : 0 <= cropEnd s).
  { destruct (floor_bounds (cropEnd s * IZR (sampleRate b))) as [F1 _].
    fold (endSample b s) in F1.
    assert (H1 : 1 <= IZR (endSample b s)) by (apply IZR_le; lia).
    nra. }
  assert (E : processAudio interpolate b s
              = Ok (mkBuffer (sampleRate b)
                      (firstn (Z.to_nat (endSample b s)) (firstChannel b))
                      (map (firstn (Z.to_nat (endSample b s)))
                           (otherChannels b)))).
  { rewrite processAudio_nonempty by (rewrite Hcl; lia).
    rewrite scheduleGain_no_fades by assumption. rewrite bind_Ok.
    rewrite start_Ok by (rewrite Hstart; lra). rewrite bind_Ok.
    rewrite Hcl, Hstart, Hvol. unfold startRendering. do 2 f_equal.
    - apply renderChannel_prefix; [exact Hr' | |].
      + fold (endSample b s). lia.
      + fold (bufferLength b). lia.
    - apply map_ext_in. intros c Hc.
      apply renderChannel_prefix; [exact Hr' | |].
      + fold (endSample b s). lia.
      + rewrite Forall_forall in Hwf. rewrite (Hwf c Hc). lia. }
  split; [exact E |].
  intros Hall. rewrite E, Hall, Nat2Z.id.
  destruct b as [rate first others]. unfold bufferLength in *.
  cbn [sampleRate firstChannel otherChannels] in *.
  f_equal. f_equal.
  - apply firstn_all.
  - rewrite <- (map_id others) at 2. apply map_ext_in.
    intros c Hc. rewrite Forall_forall in Hwf. rewrite <- (Hwf c Hc).
    apply firstn_all.
Qed.

End NeutralRender.

Lemma processAudio_neutral_is_prefix_witness :
  processAudio holdFrame fourOnes plainCrop = Ok fourOnes.
Proof.
  assert (E : endSample fourOnes plainCrop = 4%Z).
  { unfold endSample. cbn [cropEnd plainCrop sampleRate fourOnes].
    floor_is 4%Z. reflexivity. }
  apply (processAudio_neutral_is_prefix holdFrame fourOnes plainCrop);
    try reflexivity.
  - constructor.
  - rewrite E. cbn. lia.
  - rewrite E. reflexivity.
Defined.

(** ** Automation the platform refuses *)

Section RefusedAutomation.

Variable interpolate : list R -> R -> R.

(** An exponential fade in at volume 0 fails: the ramp would have to reach
    0, which the platform refuses with a RangeError. *)
Theorem processAudio_muted_exponential_fadeIn (b : AudioBuffer)
  (s : AudioEditSettings)
  (Hlen : (0 < croppedLength b s)%Z)
  (Hin : fadeActive (fadeIn s) = true)
  (Hcurve : curve (fadeIn s) = exponential)
  (Hvol : volume s = 0) :
  processAudio interpolate b s = Err (Platform RangeError).
Proof.
  rewrite processAudio_nonempty by exact Hlen.
  unfold scheduleGain, applyFadeIn. rewrite Hin, Hcurve, Hvol.
  rewrite (setValueAtTime_after [] 0 0) by (lra || constructor).
  rewrite bind_Ok. cbn [app].
  rewrite setValueAtTime_after by (lra || done_by). rewrite bind_Ok.
  rewrite setValueAtTime_after by (lra || done_by). rewrite bind_Ok.
  rewrite exponentialRamp_zero. reflexivity.
Qed.



End RefusedAutomation.

Ltac whole_buffer :=
  try reflexivity;
  try (rewrite croppedLength_whole by reflexivity; lia);
  try (apply fadeActive_true; cbn; split; [reflexivity | lra]);
  try (rewrite totalDuration_whole by reflexivity; cbn;
       rewrite ?Rmin_left by lra; lra);
  try (cbn; lra).

Lemma processAudio_muted_exponential_fadeIn_witness :
  processAudio holdFrame fourOnes mutedExponentialFadeIn
  = Err (Platform RangeError).
Proof.
  apply (processAudio_muted_exponential_fadeIn holdFrame fourOnes
           mutedExponentialFadeIn); whole_buffer.
Defined.



(** ** The shape of the fades *)

Lemma gainAt_lone_fadeIn (b : AudioBuffer) (s : AudioEditSettings) (t : R) :
  0 < totalDuration b s -> audibleExponentialFadeIn s ->
  fadeActive (fadeOut s) = false ->
  gainAt b s t
  = valueAtTime (SetValue (volume s) 0
                 :: fadeInEvents (fadeIn s) (volume s) (totalDuration b s)) t.
Proof.
  intros HT Hexp Hout. unfold gainAt.
  rewrite scheduleGain_disjoint;
    [| exact HT | exact Hexp | intros _ A; rewrite Hout in A; discriminate A].
  rewrite (fadeOutEvents_inactive _ _ _ Hout), app_nil_r. reflexivity.
Qed.

Lemma gainAt_lone_fadeOut (b : AudioBuffer) (s : AudioEditSettings) (t : R) :
  0 < totalDuration b s -> fadeActive (fadeIn s) = false ->
  gainAt b s t
  = valueAtTime (SetValue (volume s) 0
                 :: fadeOutEvents (fadeOut s) (volume s) (totalDuration b s)) t.
Proof.
  intros HT Hin. unfold gainAt.
  rewrite scheduleGain_disjoint;
    [| exact HT | intros A; rewrite Hin in A; discriminate A
     | intros A; rewrite Hin in A; discriminate A].
  rewrite (fadeInEvents_inactive _ _ _ Hin). reflexivity.
Qed.

(** A lone exponential fade in does not follow the ease law [t * t]: it is
    the platform's exponential ramp from the floor 0.001 to the volume,
    [0.001 * (volume / 0.001) ^ (t / fadeDuration)]. *)
Theorem gainAt_exponential_fadeIn (b : AudioBuffer) (s : AudioEditSettings)
  (t : R)
  (Hrate : (0 < sampleRate b)%Z)
  (Hlen : (0 < croppedLength b s)%Z)
  (Hin : fadeActive (fadeIn s) = true)
  (Hcurve : curve (fadeIn s) = exponential)
  (Hout : fadeActive (fadeOut s) = false)
  (Hvol : 0 < volume s)
  (Ht : 0 <= t < Rmin (duration (fadeIn s)) (totalDuration b s)) :
  gainAt b s t
  = 0.001 * Rpower (volume s / 0.001)
                   (t / Rmin (duration (fadeIn s)) (totalDuration b s)).
Proof.
  pose proof (totalDuration_pos b s Hrate Hlen) as HT.
  rewrite gainAt_lone_fadeIn;
    [| exact HT | intros _ _; lra | exact Hout].
  unfold fadeInEvents. rewrite Hin, Hcurve. cbv zeta.
  set (d := Rmin (duration (fadeIn s)) (totalDuration b s)) in *.
  set (V := volume s) in *. clearbody d V.
  unfold valueAtTime. cbn [valueFrom eventTime]. real_cases.
  rewrite !Rminus_0_r. reflexivity.
Qed.

Lemma gainAt_exponential_fadeIn_witness :
  gainAt fourOnes (loneFadeIn exponential) 0.000125
  = 0.001 * Rpower (0.5 / 0.001) (0.000125 / 0.00025).
Proof.
  assert (Ed : Rmin (duration (fadeIn (loneFadeIn exponential)))
                 (totalDuration fourOnes (loneFadeIn exponential))
               = 0.00025).
  { rewrite totalDuration_whole by reflexivity. cbn. apply Rmin_left. lra. }
  rewrite <- Ed.
  apply (gainAt_exponential_fadeIn fourOnes (loneFadeIn exponential));
    try (rewrite Ed); whole_buffer.
Defined.

(** *** Sampled curves *)

(** A curve of 100 points passes through its points: at the [k]-th of the 99
    equal steps of its interval its value is the [k]-th point. *)
Lemma curveValue_knot (vs : list R) (T D : R) (k : nat) :
  List.length vs = 100%nat -> 0 < D ->
  curveValue vs T D (T + D * INR k / 99) = nth k vs 0.
Proof.
  intros Hl HD. unfold curveValue. rewrite Hl.
  change (100 - 1)%nat with 99%nat. rewrite (INR_IZR_INZ 99).
  change (IZR (Z.of_nat 99)) with 99.
  replace (99 / D * (T + D * INR k / 99 - T)) with (INR k) by (field; lra).
  rewrite floor_INR, Nat2Z.id. ring.
Qed.

(** A lone logarithmic or sCurve fade in passes through the ease curve: at
    each of the 100 sample times [fadeDuration * k / 99] the gain is
    [applyEaseCurve (k / 99) curve * volume]. *)
Theorem gainAt_sampled_fadeIn_knots (b : AudioBuffer) (s : AudioEditSettings)
  (k : nat)
  (Hrate : (0 < sampleRate b)%Z)
  (Hlen : (0 < croppedLength b s)%Z)
  (Hin : fadeActive (fadeIn s) = true)
  (Hcurve : sampledCurve (curve (fadeIn s)) = true)
  (Hout : fadeActive (fadeOut s) = false)
  (Hk : (k < 100)%nat) :
  gainAt b s (Rmin (duration (fadeIn s)) (totalDuration b s) * INR k / 99)
  = applyEaseCurve (INR k / 99) (curve (fadeIn s)) * volume s.
Proof.
  pose proof (totalDuration_pos b s Hrate Hlen) as HT.
  rewrite gainAt_lone_fadeIn;
    [| exact HT
     | intros _ E; rewrite E in Hcurve; discriminate Hcurve | exact Hout].
  destruct (fadeDuration_bounds _ HT _ Hin) as [Hd0 HdT].
  unfold fadeInEvents. rewrite Hin. cbv zeta.
  set (d := Rmin (duration (fadeIn s)) (totalDuration b s)) in *.
  set (V := volume s) in *.
  assert (Hk0 : 0 <= INR k) by apply pos_INR.
  assert (Hk1 : INR k <= 99).
  { change 99 with (IZR (Z.of_nat 99)). rewrite <- INR_IZR_INZ.
    apply le_INR. lia. }
  assert (Ht0 : 0 <= d * INR k / 99) by (unfold Rdiv; nra).
  set (vs := fadeInCurveValues (curve (fadeIn s)) V).
  assert (Evs : SetValueCurve (fadeInCurveValues (curve (fadeIn s)) V) 0 d
                = SetValueCurve vs 0 d) by reflexivity.
  assert (G : valueAtTime [SetValue V 0; SetValue 0 0; SetValueCurve vs 0 d]
                          (d * INR k / 99)
              = applyEaseCurve (INR k / 99) (curve (fadeIn s)) * V).
  { unfold valueAtTime. cbn [valueFrom eventTime].
    destruct (Rlt_dec (d * INR k / 99) 0); [lra |].
    destruct (Rlt_dec (d * INR k / 99) (0 + d)) as [Hlt | Hge].
    - replace (d * INR k / 99) with (0 + d * INR k / 99) by ring.
      rewrite curveValue_knot
        by (assumption || apply length_fadeInCurveValues).
      apply nth_fadeInCurveValues. exact Hk.
    - assert (E99 : INR k = 99) by (unfold Rdiv in Hge; nra).
      unfold vs. rewrite last_fadeInCurveValues, E99.
      replace (99 / 99) with 1 by field.
      rewrite applyEaseCurve_1. ring. }
  destruct (curve (fadeIn s)); try discriminate Hcurve; exact G.
Qed.

Lemma gainAt_sampled_fadeIn_knots_witness :
  gainAt fourOnes (loneFadeIn logarithmic) (0.00025 * INR 25 / 99)
  = applyEaseCurve (INR 25 / 99) logarithmic * 0.5.
Proof.
  assert (Ed : Rmin (duration (fadeIn (loneFadeIn logarithmic)))
                 (totalDuration fourOnes (loneFadeIn logarithmic))
               = 0.00025).
  { rewrite totalDuration_whole by reflexivity. cbn. apply Rmin_left. lra. }
  rewrite <- Ed.
  apply (gainAt_sampled_fadeIn_knots fourOnes (loneFadeIn logarithmic) 25);
    try lia; whole_buffer.
Defined.

(** A fade-out curve ends on 0. *)
Lemma last_fadeOutCurveValues (c : EaseCurve) (v : R) :
  last (fadeOutCurveValues c v) 0 = 0.
Proof.
  unfold fadeOutCurveValues. change steps with (S 99).
  rewrite seq_S, map_app. cbn [map]. rewrite last_last, Nat.add_0_l.
  change (S 99 - 1)%nat with 99%nat.
  replace (1 - INR 99 / INR 99) with 0
    by (field; apply not_0_INR; discriminate).
  rewrite applyEaseCurve_0. ring.
Qed.

(** A lone logarithmic or sCurve fade out passes through the mirrored ease
    curve: [k] steps into its window the gain is
    [applyEaseCurve (1 - k / 99) curve * volume]. *)
Theorem gainAt_sampled_fadeOut_knots (b : AudioBuffer) (s : AudioEditSettings)
  (k : nat)
  (Hrate : (0 < sampleRate b)%Z)
  (Hlen : (0 < croppedLength b s)%Z)
  (Hin : fadeActive (fadeIn s) = false)
  (Hout : fadeActive (fadeOut s) = true)
  (Hcurve : sampledCurve (curve (fadeOut s)) = true)
  (Hk : (k < 100)%nat) :
  gainAt b s
    (totalDuration b s - Rmin (duration (fadeOut s)) (totalDuration b s)
     + Rmin (duration (fadeOut s)) (totalDuration b s) * INR k / 99)
  = applyEaseCurve (1 - INR k / 99) (curve (fadeOut s)) * volume s.
Proof.
  pose proof (totalDuration_pos b s Hrate Hlen) as HT.
  rewrite gainAt_lone_fadeOut by assumption.
  destruct (fadeDuration_bounds _ HT _ Hout) as [Hd0 HdT].
  unfold fadeOutEvents. rewrite Hout. cbv zeta.
  set (T := totalDuration b s) in *.
  set (d := Rmin (duration (fadeOut s)) T) in *.
  set (V := volume s) in *.
  assert (Hk0 : 0 <= INR k) by apply pos_INR.
  assert (Hk1 : INR k <= 99).
  { change 99 with (IZR (Z.of_nat 99)). rewrite <- INR_IZR_INZ.
    apply le_INR. lia. }
  assert (Ht0 : 0 <= d * INR k / 99) by (unfold Rdiv; nra).
  set (vs := fadeOutCurveValues (curve (fadeOut s)) V).
  assert (G : valueAtTime [SetValue V 0; SetValueCurve vs (T - d) d]
                          (T - d + d * INR k / 99)
              = applyEaseCurve (1 - INR k / 99) (curve (fadeOut s)) * V).
  { unfold valueAtTime. cbn [valueFrom eventTime].
    destruct (Rlt_dec (T - d + d * INR k / 99) 0); [lra |].
    destruct (Rlt_dec (T - d + d * INR k / 99) (T - d)); [lra |].
    destruct (Rlt_dec (T - d + d * INR k / 99) (T - d + d)) as [Hlt | Hge].
    - rewrite curveValue_knot
        by (assumption || apply length_fadeOutCurveValues).
      apply nth_fadeOutCurveValues. exact Hk.
    - assert (E99 : INR k = 99) by (unfold Rdiv in Hge; nra).
      unfold vs. rewrite last_fadeOutCurveValues, E99.
      replace (1 - 99 / 99) with 0 by field.
      rewrite applyEaseCurve_0. ring. }
  destruct (curve (fadeOut s)); try discriminate Hcurve; exact G.
Qed.

Lemma gainAt_sampled_fadeOut_knots_witness :
  gainAt fourOnes (loneFadeOut sCurve)
         (0.0005 - 0.00025 + 0.00025 * INR 50 / 99)
  = applyEaseCurve (1 - INR 50 / 99) sCurve * 0.5.
Proof.
  assert (ET : totalDuration fourOnes (loneFadeOut sCurve) = 0.0005)
    by (apply totalDuration_whole; reflexivity).
  assert (Ed : Rmin (duration (fadeOut (loneFadeOut sCurve)))
                 (totalDuration fourOnes (loneFadeOut sCurve))
               = 0.00025).
  { rewrite ET. cbn. apply Rmin_left. lra. }
  rewrite <- Ed, <- ET.
  apply (gainAt_sampled_fadeOut_knots fourOnes (loneFadeOut sCurve) 50);
    try lia; whole_buffer.
Defined.

(** *** Linear fades *)



(** ** The gain never exceeds the volume *)

Lemma exp_le (x y : R) : x <= y -> exp x <= exp y.
Proof.
  intros [H | ->]; [left; apply exp_increasing; exact H | right; reflexivity].
Qed.

(** A power with an exponent in [0, 1] lies between 1 and the base. *)
Lemma Rpower_between (x p : R) :
  0 < x -> 0 <= p <= 1 -> 0 < Rpower x p <= Rmax 1 x.
Proof.
  intros Hx [Hp0 Hp1]. split; [apply exp_pos |]. unfold Rpower.
  destruct (Rle_dec 1 x) as [H1 | H1].
  - rewrite Rmax_right by exact H1.
    assert (Hln : 0 <= ln x).
    { destruct H1 as [H1 | <-]; [| rewrite ln_1; lra].
      rewrite <- ln_1. left. apply ln_increasing; lra. }
    rewrite <- (exp_ln x Hx) at 2. apply exp_le. nra.
  - rewrite Rmax_left by lra.
    assert (Hln : ln x < 0).
    { rewrite <- ln_1. apply ln_increasing; lra. }
    rewrite <- exp_0. apply exp_le. nra.
Qed.

Lemma last_bounded (H : R) (vs : list R) :
  0 <= H -> (forall k, 0 <= nth k vs 0 <= H) -> 0 <= last vs 0 <= H.
Proof.
  intros HH. induction vs as [| x vs IH]; intros Hb.
  - cbn. lra.
  - destruct vs as [| y vs].
    + exact (Hb 0%nat).
    + change (last (x :: y :: vs) 0) with (last (y :: vs) 0).
      apply IH. intros k. exact (Hb (S k)).
Qed.

Lemma curveValue_bounded (H : R) (vs : list R) (T D t : R) :
  (forall k, 0 <= nth k vs 0 <= H) -> 0 < D -> T <= t ->
  0 <= curveValue vs T D t <= H.
Proof.
  intros Hb HD Ht. unfold curveValue.
  set (pos := INR (List.length vs - 1) / D * (t - T)).
  assert (Hpos : 0 <= pos).
  { unfold pos. apply Rmult_le_pos; [| lra].
    apply Rmult_le_pos; [apply pos_INR |].
    apply Rlt_le, Rinv_0_lt_compat, HD. }
  assert (Hf : (0 <= floor pos)%Z).
  { apply floor_le in Hpos. rewrite floor_IZR in Hpos. exact Hpos. }
  destruct (floor_bounds pos) as [F1 F2].
  rewrite INR_IZR_INZ, Z2Nat.id by exact Hf.
  set (w := pos - IZR (floor pos)).
  assert (Hw : 0 <= w <= 1) by (unfold w; lra).
  pose proof (Hb (Z.to_nat (floor pos))) as Ha.
  pose proof (Hb (S (Z.to_nat (floor pos)))) as Hb'.
  nra.
Qed.

(** A timeline of bounded events, entered with a bounded value, stays
    bounded: ramps and curves interpolate. *)
Lemma valueFrom_bounded (H : R) (t : R) (tl : Timeline) :
  0 <= H -> Forall (boundedEvent H) tl ->
  forall v0 t0, 0 <= v0 <= H -> t0 <= t ->
  0 <= valueFrom v0 t0 tl t <= H.
Proof.
  intros HH. induction 1 as [| e tl He _ IH]; intros v0 t0 Hv Ht.
  - exact Hv.
  - destruct e as [v tx | v tx | v tx | vs tx d]; cbn in He;
      cbn [valueFrom eventTime]; destruct (Rlt_dec t tx) as [Hlt | Hge].
    + exact Hv.
    + apply IH; [exact He | lra].
    + assert (Hp : 0 <= (t - t0) / (tx - t0) <= 1).
      { split.
        - apply Rmult_le_pos; [lra |]. apply Rlt_le, Rinv_0_lt_compat. lra.
        - apply Rmult_le_reg_r with (tx - t0); [lra |].
          unfold Rdiv. rewrite Rmult_assoc, Rinv_l by lra. lra. }
      nra.
    + apply IH; [exact He | lra].
    + destruct (Rlt_dec 0 (v0 * v)) as [Hprod | _]; [| exact Hv].
      assert (Hv0 : 0 < v0) by nra. assert (Hv1 : 0 < v) by nra.
      assert (Hp : 0 <= (t - t0) / (tx - t0) <= 1).
      { split.
        - apply Rmult_le_pos; [lra |]. apply Rlt_le, Rinv_0_lt_compat. lra.
        - apply Rmult_le_reg_r with (tx - t0); [lra |].
          unfold Rdiv. rewrite Rmult_assoc, Rinv_l by lra. lra. }
      assert (Hx : 0 < v / v0) by (apply Rdiv_lt_0_compat; assumption).
      destruct (Rpower_between (v / v0) _ Hx Hp) as [P0 P1].
      set (q := Rpower (v / v0) ((t - t0) / (tx - t0))) in *.
      split; [nra |].
      apply Rle_trans with (v0 * Rmax 1 (v / v0)).
      * apply Rmult_le_compat_l; lra.
      * unfold Rmax. destruct (Rle_dec 1 (v / v0)).
        -- replace (v0 * (v / v0)) with v by (field; lra). lra.
        -- lra.
    + apply IH; [exact He | lra].
    + exact Hv.
    + destruct (Rlt_dec t (tx + d)) as [Hin | Hafter].
      * apply curveValue_bounded; [exact He | lra | lra].
      * apply IH; [apply last_bounded; assumption | lra].
Qed.

(** What an accepted call leaves on the timeline. *)
Lemma setValueAtTime_inv (v t : R) (tl tl' : Timeline) :
  setValueAtTime v t tl = Ok tl' ->
  0 <= t /\ tl' = insertEvent (SetValue v t) tl.
Proof.
  unfold setValueAtTime, negativeTime. intros H.
  destruct (Rlt_dec t 0); [discriminate H |].
  destruct (existsb _ tl); [discriminate H |].
  split; [lra | congruence].
Qed.

Lemma linearRamp_inv (v t : R) (tl tl' : Timeline) :
  linearRampToValueAtTime v t tl = Ok tl' ->
  0 <= t /\ tl' = insertEvent (LinearRamp v t) tl.
Proof.
  unfold linearRampToValueAtTime, negativeTime. intros H.
  destruct (Rlt_dec t 0); [discriminate H |].
  destruct (existsb _ tl); [discriminate H |].
  split; [lra | congruence].
Qed.

Lemma exponentialRamp_inv (v t : R) (tl tl' : Timeline) :
  exponentialRampToValueAtTime v t tl = Ok tl' ->
  0 <= t /\ tl' = insertEvent (ExponentialRamp v t) tl.
Proof.
  unfold exponentialRampToValueAtTime, negativeTime. intros H.
  destruct (Req_dec_T v 0); [discriminate H |].
  destruct (Rlt_dec t 0); [discriminate H |].
  destruct (existsb _ tl); [discriminate H |].
  split; [lra | congruence].
Qed.

Lemma setValueCurve_inv (vs : list R) (t d : R) (tl tl' : Timeline) :
  setValueCurveAtTime vs t d tl = Ok tl' ->
  0 <= t /\ tl' = insertEvent (SetValueCurve vs t d) tl.
Proof.
  unfold setValueCurveAtTime, negativeTime. intros H.
  destruct (List.length vs <? 2)%nat; [discriminate H |].
  destruct (Rlt_dec t 0); [discriminate H |].
  destruct (Rle_dec d 0); [discriminate H |].
  destruct (existsb _ tl || existsb _ tl); [discriminate H |].
  split; [lra | congruence].
Qed.

Lemma bind_inv {A B : Type} (m : result A) (k : A -> result B) (r : B) :
  bind m k = Ok r -> exists a, m = Ok a /\ k a = Ok r.
Proof.
  destruct m as [a | e]; cbn; intros H; [| discriminate H].
  exists a. split; [reflexivity | exact H].
Qed.

Lemma Forall_insertEvent (P : AutomationEvent -> Prop) (e : AutomationEvent)
  (tl : Timeline) :
  P e -> Forall P tl -> Forall P (insertEvent e tl).
Proof.
  intros He. induction 1 as [| x tl Hx Htl IH]; cbn.
  - constructor; [exact He | constructor].
  - destruct (Rlt_dec (eventTime e) (eventTime x)).
    + constructor; [exact He |]. constructor; assumption.
    + constructor; assumption.
Qed.

Section BoundedGain.

Variables (V H : R).

Lemma volumeFirst_insert (e : AutomationEvent) (tl : Timeline) :
  0 <= eventTime e -> boundedEvent H e -> volumeFirst V H tl ->
  volumeFirst V H (insertEvent e tl).
Proof.
  intros Ht He (rest & -> & Hrest). cbn.
  destruct (Rlt_dec (eventTime e) 0); [lra |].
  exists (insertEvent e rest). split; [reflexivity |].
  apply Forall_insertEvent; assumption.
Qed.

Ltac invert_calls :=
  repeat match goal with
         | E : bind _ _ = Ok _ |- _ =>
             apply bind_inv in E; destruct E as (? & ? & E)
         | E : setValueAtTime _ _ _ = Ok _ |- _ =>
             apply setValueAtTime_inv in E; destruct E as [? ->]
         | E : linearRampToValueAtTime _ _ _ = Ok _ |- _ =>
             apply linearRamp_inv in E; destruct E as [? ->]
         | E : exponentialRampToValueAtTime _ _ _ = Ok _ |- _ =>
             apply exponentialRamp_inv in E; destruct E as [? ->]
         | E : setValueCurveAtTime _ _ _ _ = Ok _ |- _ =>
             apply setValueCurve_inv in E; destruct E as [? ->]
         end.

Hypothesis HV : 0 <= V <= H.

Lemma fadeInCurveValues_bounded (c : EaseCurve) (k : nat) :
  0 <= nth k (fadeInCurveValues c V) 0 <= H.
Proof.
  destruct (Nat.lt_ge_cases k 100) as [Hk | Hk].
  - rewrite nth_fadeInCurveValues by exact Hk.
    assert (Hr : 0 <= INR k / 99 <= 1).
    { assert (0 <= INR k) by apply pos_INR.
      assert (INR k <= 99).
      { change 99 with (IZR (Z.of_nat 99)). rewrite <- INR_IZR_INZ.
        apply le_INR. lia. }
      lra. }
    pose proof (applyEaseCurve_range c _ Hr). nra.
  - rewrite nth_overflow by (rewrite length_fadeInCurveValues; exact Hk). lra.
Qed.

Lemma fadeOutCurveValues_bounded (c : EaseCurve) (k : nat) :
  0 <= nth k (fadeOutCurveValues c V) 0 <= H.
Proof.
  destruct (Nat.lt_ge_cases k 100) as [Hk | Hk].
  - rewrite nth_fadeOutCurveValues by exact Hk.
    assert (Hr : 0 <= 1 - INR k / 99 <= 1).
    { assert (0 <= INR k) by apply pos_INR.
      assert (INR k <= 99).
      { change 99 with (IZR (Z.of_nat 99)). rewrite <- INR_IZR_INZ.
        apply le_INR. lia. }
      lra. }
    pose proof (applyEaseCurve_range c _ Hr). nra.
  - rewrite nth_overflow by (rewrite length_fadeOutCurveValues; exact Hk). lra.
Qed.

Lemma applyFadeIn_volumeFirst (f : Fade) (T : R) (tl tl' : Timeline) :
  (exponentialFade f = true -> 0.001 <= H) ->
  applyFadeIn f V T tl = Ok tl' -> volumeFirst V H tl -> volumeFirst V H tl'.
Proof.
  unfold applyFadeIn, exponentialFade. intros Hfloor E Htl.
  destruct (fadeActive f); [| injection E as <-; exact Htl].
  cbn [andb] in Hfloor.
  destruct (curve f); invert_calls;
    repeat (apply volumeFirst_insert;
            [cbn [eventTime]; lra | cbn [boundedEvent]; try lra |]);
    try exact Htl; try apply fadeInCurveValues_bounded.
Qed.

Lemma applyFadeOut_volumeFirst (f : Fade) (T : R) (tl tl' : Timeline) :
  (exponentialFade f = true -> 0.001 <= H) ->
  applyFadeOut f V T tl = Ok tl' -> volumeFirst V H tl -> volumeFirst V H tl'.
Proof.
  unfold applyFadeOut, exponentialFade. intros Hfloor E Htl.
  destruct (fadeActive f); [| injection E as <-; exact Htl].
  cbn [andb] in Hfloor. cbv zeta in E.
  destruct (curve f); invert_calls;
    repeat (apply volumeFirst_insert;
            [cbn [eventTime]; lra | cbn [boundedEvent]; try lra |]);
    try exact Htl; try apply fadeOutCurveValues_bounded.
Qed.

End BoundedGain.

Lemma scheduleGain_volumeFirst (b : AudioBuffer) (s : AudioEditSettings)
  (gain : Timeline) (H : R) :
  0 <= volume s <= H ->
  (exponentialFade (fadeIn s) = true -> 0.001 <= H) ->
  (exponentialFade (fadeOut s) = true -> 0.001 <= H) ->
  scheduleGain b s = Ok gain -> volumeFirst (volume s) H gain.
Proof.
  intros HV Hi Ho E. unfold scheduleGain in E. cbv zeta in E.
  apply bind_inv in E. destruct E as (g0 & E0 & E).
  apply bind_inv in E. destruct E as (g1 & E1 & E2).
  apply setValueAtTime_inv in E0. destruct E0 as [_ ->].
  apply (applyFadeOut_volumeFirst _ _ HV _ _ _ _ Ho E2).
  apply (applyFadeIn_volumeFirst _ _ HV _ _ _ _ Hi E1).
  exists []. split; [reflexivity | constructor].
Qed.

(** Whatever the fades and however their windows overlap, an accepted
    automation never gives a negative gain nor one above the larger of the
    volume and the floor 0.001; without an exponential fade the gain never
    exceeds the volume. *)
Theorem gain_bounded_by_volume (b : AudioBuffer) (s : AudioEditSettings)
  (gain : Timeline) (t : R)
  (Hvol : 0 <= volume s)
  (Hgain : scheduleGain b s = Ok gain)
  (Ht : 0 <= t) :
  0 <= valueAtTime gain t <= Rmax (volume s) 0.001 /\
  (exponentialFade (fadeIn s) = false ->
   exponentialFade (fadeOut s) = false ->
   valueAtTime gain t <= volume s).
Proof.
  assert (Hgen : forall H, 0 <= volume s <= H ->
            (exponentialFade (fadeIn s) = true -> 0.001 <= H) ->
            (exponentialFade (fadeOut s) = true -> 0.001 <= H) ->
            0 <= valueAtTime gain t <= H).
  { intros H HV Hi Ho.
    destruct (scheduleGain_volumeFirst b s gain H HV Hi Ho Hgain)
      as (rest & -> & Hrest).
    unfold valueAtTime. cbn [valueFrom eventTime].
    destruct (Rlt_dec t 0); [lra |].
    apply valueFrom_bounded; (lra || assumption). }
  split.
  - apply Hgen.
    + split; [exact Hvol | apply Rmax_l].
    + intros _. apply Rmax_r.
    + intros _. apply Rmax_r.
  - intros Hi Ho. apply Hgen.
    + lra.
    + intros E. rewrite Hi in E. discriminate E.
    + intros E. rewrite Ho in E. discriminate E.
Qed.

Lemma gain_bounded_by_volume_witness :
  0 <= valueAtTime
         [SetValue 1 0; SetValue 0 0; SetValue 1 0.000125;
          LinearRamp 1 0.000375; LinearRamp 0 0.0005] 0.0003
    <= 1.
Proof.
  destruct (gain_bounded_by_volume fourOnes overlappingFades _ 0.0003
              ltac:(cbn; lra) scheduleGain_overlappingFades ltac:(lra))
    as [[G0 _] G1].
  split; [exact G0 |].
  apply G1; unfold exponentialFade; cbn [fadeIn fadeOut overlappingFades curve];
    apply andb_false_r.
Defined.

(** ** The default fade lengths *)

Section DefaultFades.

Variable interpolate : list R -> R -> R.

(** Whatever duration the default settings are built from, as long as the
    crop they give quantizes to at least one frame: the default fade length
    [min (1, 0.1 * duration)] keeps the two fade windows apart whatever the
    switches, the curves and the volume, so rendering succeeds (an
    exponential fade in still needs a volume that is not 0). *)
Theorem default_fade_lengths_render (b : AudioBuffer) (dur vol : R)
  (e1 e2 : bool) (c1 c2 : EaseCurve)
  (Hrate : (0 < sampleRate b)%Z)
  (Hlen : (0 < croppedLength b (getDefaultSettings dur))%Z) :
  let d := getDefaultSettings dur in
  let s := mkSettings (cropStart d) (cropEnd d) vol
                      (mkFade e1 (duration (fadeIn d)) c1)
                      (mkFade e2 (duration (fadeOut d)) c2) in
  disjointFades b s /\
  (audibleExponentialFadeIn s ->
   exists out, processAudio interpolate b s = Ok out).
Proof.
  cbv zeta. cbn [getDefaultSettings cropStart cropEnd fadeIn fadeOut duration].
  set (s := mkSettings 0 dur vol _ _).
  change (croppedLength b (getDefaultSettings dur))
    with (croppedLength b s) in Hlen.
  assert (Hr' : 0 < IZR (sampleRate b)) by (apply IZR_lt; exact Hrate).
  pose proof (totalDuration_pos b s Hrate Hlen) as HT.
  assert (Hframe : 1 <= IZR (croppedLength b s)) by (apply IZR_le; lia).
  assert (Hcl : IZR (croppedLength b s) <= dur * IZR (sampleRate b)
                < IZR (croppedLength b s) + 1).
  { unfold croppedLength, endSample, startSample.
    cbn [cropStart cropEnd s].
    rewrite Rmult_0_l, floor_IZR, Z.sub_0_r. apply floor_bounds. }
  assert (HTd : totalDuration b s <= dur < 2 * totalDuration b s).
  { unfold totalDuration. split.
    - apply (Rmult_le_reg_r (IZR (sampleRate b))); [exact Hr' |].
      unfold Rdiv. rewrite Rmult_assoc, Rinv_l by lra. lra.
    - apply (Rmult_lt_reg_r (IZR (sampleRate b))); [exact Hr' |].
      unfold Rdiv. rewrite !Rmult_assoc, Rinv_l by lra. lra. }
  assert (Hdis : disjointFades b s).
  { intros _ _. cbn [fadeIn fadeOut s duration].
    pose proof (Rmin_l (Rmin 1 (dur * 0.1)) (totalDuration b s)).
    pose proof (Rmin_r 1 (dur * 0.1)). lra. }
  split; [exact Hdis |].
  intros Haud.
  rewrite processAudio_nonempty by exact Hlen.
  rewrite scheduleGain_disjoint; [| exact HT | exact Haud | exact Hdis].
  rewrite bind_Ok. rewrite start_Ok by (cbn; lra). rewrite bind_Ok.
  eexists. reflexivity.
Qed.

End DefaultFades.

Lemma default_fade_lengths_render_witness :
  exists out,
    processAudio holdFrame fourOnes
      (mkSettings 0 0.0005 1
         (mkFade true (Rmin 1 (0.0005 * 0.1)) sCurve)
         (mkFade true (Rmin 1 (0.0005 * 0.1)) logarithmic))
    = Ok out.
Proof.
  destruct (default_fade_lengths_render holdFrame fourOnes 0.0005 1 true true
              sCurve logarithmic) as [_ R].
  - reflexivity.
  - rewrite croppedLength_whole by reflexivity. lia.
  - apply R. intros _ E. discriminate E.
Defined.

(** ** Waveform peaks, continued *)

Lemma fold_peakStep_ext (data data' : list R) (js : list nat) :
  (forall j, In j js -> nth j data 0 = nth j data' 0) ->
  forall acc,
    fold_left (peakStep data) js acc = fold_left (peakStep data') js acc.
Proof.
  induction js as [| j js IH]; intros Hext acc.
  - reflexivity.
  - cbn [fold_left]. unfold peakStep at 2 4.
    rewrite (Hext j (or_introl eq_refl)).
    apply IH. intros j' Hj'. apply Hext. right. exact Hj'.
Qed.

(** The peaks depend only on the first [N * floor (length / N)] samples of
    the first channel: the samples after the last bucket, the other
    channels and the sample rate are never looked at. *)
Theorem extractWaveformPeaks_ignores_tail (b b' : AudioBuffer) (N : nat)
  (Hlen : bufferLength b = bufferLength b')
  (Hsame : forall j, (j < N * (bufferLength b / N))%nat ->
                     nth j (firstChannel b) 0 = nth j (firstChannel b') 0) :
  extractWaveformPeaks b N = extractWaveformPeaks b' N.
Proof.
  unfold extractWaveformPeaks. unfold bufferLength in *.
  rewrite <- Hlen.
  set (spb := (List.length (firstChannel b) / N)%nat) in *.
  assert (E : map (bucketPeaks (firstChannel b) spb) (seq 0 N)
              = map (bucketPeaks (firstChannel b') spb) (seq 0 N)).
  { apply map_ext_in. intros i Hi. apply in_seq in Hi.
    assert (Hi' : (i < N)%nat) by lia.
    pose proof (bucketPeaks_window (firstChannel b) N i Hi') as W.
    pose proof (bucketPeaks_window (firstChannel b') N i Hi') as W'.
    rewrite <- Hlen in W'. fold spb in W, W'. rewrite W, W'.
    apply fold_peakStep_ext. intros j Hj. apply in_seq in Hj.
    apply Hsame. nia. }
  rewrite E. reflexivity.
Qed.

Lemma extractWaveformPeaks_ignores_tail_witness :
  extractWaveformPeaks (mkBuffer 8000 [0.5; -0.25; 2] []) 2
  = extractWaveformPeaks (mkBuffer 44100 [0.5; -0.25; -3] [[1; 1; 1]]) 2.
Proof.
  apply extractWaveformPeaks_ignores_tail.
  - reflexivity.
  - intros j Hj. cbn in Hj.
    destruct j as [| [| j]]; [reflexivity | reflexivity | lia].
Defined.

(** For samples within [-1, 1] every peak lies within [-1, 1]. *)
Theorem extractWaveformPeaks_range (b : AudioBuffer) (N i : nat)
  (Hi : (i < N)%nat)
  (Hnominal : forall j, -1 <= nth j (firstChannel b) 0 <= 1) :
  -1 <= nth i (positive (extractWaveformPeaks b N)) 0 <= 1 /\
  -1 <= nth i (negative (extractWaveformPeaks b N)) 0 <= 1.
Proof.
  pose proof (extractWaveformPeaks_nth b N i Hi) as E.
  rewrite (bucketPeaks_window (firstChannel b) N i Hi) in E.
  pose proof (peaks_fold (firstChannel b)
                (seq (i * (List.length (firstChannel b) / N))
                     (List.length (firstChannel b) / N)) (-1) 1) as F.
  cbv zeta in F. rewrite <- E in F. cbn [fst snd] in F.
  destruct F as (F1 & F2 & _ & F4 & F5).
  split; split; try assumption.
  - destruct F4 as [-> | (j & _ & ->)]; [lra | apply Hnominal].
  - destruct F5 as [-> | (j & _ & ->)]; [lra | apply Hnominal].
Qed.

Lemma extractWaveformPeaks_range_witness :
  let b := mkBuffer 8000 [0.5; -0.25] [] in
  -1 <= nth 0 (positive (extractWaveformPeaks b 2)) 0 <= 1.
Proof.
  apply (extractWaveformPeaks_range (mkBuffer 8000 [0.5; -0.25] []) 2 0).
  - lia.
  - intros j. cbn. destruct j as [| [| [| j]]]; lra.
Defined.

(** ** The WAV writer, continued *)

(** A field of [n] bytes holds its value modulo [256 ^ n]. *)
Lemma uint_leBytes_mod (n : nat) (v : Z) :
  uintOfLeBytes (leBytes n v) = (v mod 256 ^ Z.of_nat n)%Z.
Proof.
  revert v. induction n as [| n IH]; intros v.
  - cbn. rewrite Z.mod_1_r. reflexivity.
  - cbn [leBytes uintOfLeBytes fold_right].
    fold (uintOfLeBytes (leBytes n (v / 256))).
    rewrite IH, Nat2Z.inj_succ, Z.pow_succ_r by lia.
    rewrite Z.rem_mul_r by lia. reflexivity.
Qed.

Lemma trunc_error (x : R) :
  Rabs (IZR (trunc x) - x) < 1 /\ Rabs (IZR (trunc x)) <= Rabs x.
Proof.
  destruct (Rle_dec 0 x) as [Hx | Hx].
  - rewrite trunc_nonneg by exact Hx.
    destruct (floor_bounds x) as [F1 F2].
    pose proof (floor_le 0 x Hx) as F0. rewrite floor_IZR in F0.
    apply IZR_le in F0.
    split; unfold Rabs; case_ifs; lra.
  - rewrite trunc_neg by lra. rewrite opp_IZR.
    destruct (floor_bounds (- x)) as [F1 F2].
    assert (H0 : 0 <= - x) by lra.
    apply floor_le in H0. rewrite floor_IZR in H0. apply IZR_le in H0.
    split; unfold Rabs; case_ifs; lra.
Qed.

(** Every sample can be read back from the file: the two bytes at offset
    [44 + 2 * (i * channels + ch)], read as a signed 16-bit little-endian
    integer, are the clamped and scaled sample of frame [i], channel [ch]
    truncated towards zero, less than one quantization step away from it and
    never larger in magnitude. *)
Theorem audioBufferToWav_sample_roundtrip (b : AudioBuffer) (i ch : nat)
  (Hi : (i < bufferLength b)%nat) (Hch : (ch < numberOfChannels b)%nat) :
  exists blob,
    audioBufferToWav b = Ok blob /\
    let stored :=
      int16OfLeBytes
        (firstn 2 (skipn (44 + (i * numberOfChannels b + ch) * 2)
                         (blobBytes blob))) in
    let scaled := scaleSample (clampSample (getChannelData b ch i)) in
    stored = trunc scaled /\
    Rabs (IZR stored - scaled) < 1 /\
    Rabs (IZR stored) <= Rabs scaled.
Proof.
  eexists. split; [apply audioBufferToWav_bytes |].
  cbn [blobBytes]. cbv zeta.
  rewrite skipn_app, length_wavHeader.
  rewrite skipn_all2 by (rewrite length_wavHeader; lia).
  replace (44 + (i * numberOfChannels b + ch) * 2 - 44)%nat
    with ((i * numberOfChannels b + ch) * 2)%nat by lia.
  cbn [app]. rewrite interleavedSamples_at by assumption.
  unfold sampleBytes.
  rewrite int16_bytes_roundtrip
    by (apply trunc_int16_range, scaleSample_range, clampSample_range).
  split; [reflexivity |]. apply trunc_error.
Qed.

Lemma audioBufferToWav_sample_roundtrip_witness :
  exists blob,
    audioBufferToWav (mkBuffer 8000 [0.5; -3] [[1; 0.25]]) = Ok blob /\
    int16OfLeBytes (firstn 2 (skipn 50 (blobBytes blob)))
    = trunc (scaleSample (clampSample 0.25)).
Proof.
  destruct (audioBufferToWav_sample_roundtrip
              (mkBuffer 8000 [0.5; -3] [[1; 0.25]]) 1 1)
    as (blob & E & S & _).
  - cbn. lia.
  - cbn. lia.
  - exists blob. split; [exact E | exact S].
Defined.

(** Every numeric header field, read back as an unsigned little-endian
    integer, is the value the layout gives it modulo the width of the field:
    exact while it fits, silently wrapped from 4 GiB of sample data on. *)
Theorem audioBufferToWav_header_fields (b : AudioBuffer) :
  exists blob,
    audioBufferToWav b = Ok blob /\
    let field off n :=
      uintOfLeBytes (firstn n (skipn off (blobBytes blob))) in
    let blockAlign := Z.of_nat (numberOfChannels b * 2) in
    let dataLength :=
      Z.of_nat (bufferLength b * (numberOfChannels b * 2)) in
    field 4%nat 4%nat = ((36 + dataLength) mod 2 ^ 32)%Z /\
    field 16%nat 4%nat = 16%Z /\
    field 20%nat 2%nat = 1%Z /\
    field 22%nat 2%nat = (Z.of_nat (numberOfChannels b) mod 2 ^ 16)%Z /\
    field 24%nat 4%nat = (sampleRate b mod 2 ^ 32)%Z /\
    field 28%nat 4%nat = ((sampleRate b * blockAlign) mod 2 ^ 32)%Z /\
    field 32%nat 2%nat = (blockAlign mod 2 ^ 16)%Z /\
    field 34%nat 2%nat = 16%Z /\
    field 40%nat 4%nat = (dataLength mod 2 ^ 32)%Z /\
    (36 + dataLength < 2 ^ 32 ->
     field 4%nat 4%nat = 36 + dataLength /\
     field 40%nat 4%nat = dataLength)%Z.
Proof.
  eexists. split; [apply audioBufferToWav_bytes |].
  cbn [blobBytes]. cbv zeta. unfold wavHeader. cbv zeta.
  cbn [app skipn firstn intBytes leBytes].
  set (C := numberOfChannels b). set (F := bufferLength b).
  assert (E4 : (Z.of_nat (44 + F * (C * 2)) - 8
                = 36 + Z.of_nat (F * (C * 2)))%Z) by lia.
  rewrite E4.
  pose proof (uint_leBytes_mod 4 (36 + Z.of_nat (F * (C * 2)))) as H4.
  pose proof (uint_leBytes_mod 4 (Z.of_nat (F * (C * 2)))) as H40.
  repeat split.
  - exact H4.
  - exact (uint_leBytes_mod 2 (Z.of_nat C)).
  - exact (uint_leBytes_mod 4 (sampleRate b)).
  - exact (uint_leBytes_mod 4 (sampleRate b * Z.of_nat (C * 2))).
  - exact (uint_leBytes_mod 2 (Z.of_nat (C * 2))).
  - exact H40.
  - etransitivity; [exact H4 |]. apply Z.mod_small. lia.
  - etransitivity; [exact H40 |]. apply Z.mod_small. lia.
Qed.

(** Quantization keeps the order of the samples: a louder sample is never
    stored as a smaller integer. *)
Theorem sample_quantization_monotone (s1 s2 : R) (Hle : s1 <= s2) :
  (trunc (scaleSample (clampSample s1))
   <= trunc (scaleSample (clampSample s2)))%Z.
Proof.
  assert (Hc : clampSample s1 <= clampSample s2).
  { rewrite !clampSample_cases. case_ifs; lra. }
  assert (Hs : scaleSample (clampSample s1) <= scaleSample (clampSample s2)).
  { unfold scaleSample. case_ifs; lra. }
  revert Hs. generalize (scaleSample (clampSample s1)) as x.
  generalize (scaleSample (clampSample s2)) as y. intros y x Hxy.
  destruct (Rle_dec 0 x) as [Hx | Hx]; destruct (Rle_dec 0 y) as [Hy | Hy].
  - rewrite !trunc_nonneg by assumption. apply floor_le. exact Hxy.
  - lra.
  - rewrite trunc_neg by lra. rewrite trunc_nonneg by assumption.
    assert (H0 : 0 <= - x) by lra.
    apply floor_le in H0. rewrite floor_IZR in H0.
    apply floor_le in Hy. rewrite floor_IZR in Hy. lia.
  - rewrite !trunc_neg by lra.
    assert (H : - y <= - x) by lra. apply floor_le in H. lia.
Qed.

Lemma sample_quantization_monotone_witness :
  (trunc (scaleSample (clampSample (-2)))
   <= trunc (scaleSample (clampSample 0.5)))%Z.
Proof. apply sample_quantization_monotone. lra. Defined.

(** ** Export *)

Lemma pickOpusMimeType_order (host : string -> bool) :
  pickOpusMimeType host
  = (if host "audio/mp4;codecs=opus" then "audio/mp4;codecs=opus"
     else if host "audio/ogg;codecs=opus" then "audio/ogg;codecs=opus"
     else if host "audio/webm;codecs=opus" then "audio/webm;codecs=opus"
     else "audio/webm")%string.
Proof.
  unfold pickOpusMimeType, candidates. cbn [find].
  destruct (host "audio/mp4;codecs=opus"%string); [reflexivity |].
  destruct (host "audio/ogg;codecs=opus"%string); [reflexivity |].
  destruct (host "audio/webm;codecs=opus"%string); [reflexivity |].
  destruct (host "audio/webm"%string); reflexivity.
Qed.

Section ExportFacts.

Variable contextSupports : Z -> bool.
Variable host : string -> bool.
Variable recording : AudioBuffer -> string -> ExportError + list Z.
Variable interpolate : list R -> R -> R.

(** A successful Opus export carries the first candidate, in the order MP4,
    Ogg, WebM, that the host supports, and is named after it: "m4a" when the
    host records MP4, else "ogg" when it records Ogg, else "webm". *)
Theorem exportAudio_opus_extension (b : AudioBuffer) (blob : Blob)
  (extension : string)
  (Hex : exportAudio contextSupports host recording b opus
         = inr (blob, extension)) :
  blobType blob = pickOpusMimeType host /\
  host (blobType blob) = true /\
  extension = (if host "audio/mp4;codecs=opus" then "m4a"
               else if host "audio/ogg;codecs=opus" then "ogg"
               else "webm")%string.
Proof.
  unfold exportAudio, audioBufferToOpus, openRecorder, newMediaRecorder in Hex.
  destruct (contextSupports (sampleRate b)); [| discriminate Hex].
  destruct (host (pickOpusMimeType host)) eqn:Hs; [| discriminate Hex].
  destruct (recording b (pickOpusMimeType host)) as [e | chunks];
    [discriminate Hex |].
  injection Hex as <- <-. cbn [blobType].
  split; [reflexivity |]. split; [exact Hs |].
  rewrite pickOpusMimeType_order.
  destruct (host "audio/mp4;codecs=opus"%string); [reflexivity |].
  destruct (host "audio/ogg;codecs=opus"%string); [reflexivity |].
  destruct (host "audio/webm;codecs=opus"%string); reflexivity.
Qed.

(** On a host that supports none of the four candidates the Opus export
    fails with a NotSupportedError, whatever the buffer. *)
Theorem exportAudio_opus_unsupported (b : AudioBuffer)
  (Hnone : forall c, In c candidates -> host c = false) :
  exportAudio contextSupports host recording b opus
  = inl (Raised (Platform NotSupportedError)).
Proof.
  unfold exportAudio, audioBufferToOpus, openRecorder, newMediaRecorder.
  destruct (contextSupports (sampleRate b)); [| reflexivity].
  rewrite pickOpusMimeType_order.
  assert (In4 : forall c, In c candidates -> host c = false) by exact Hnone.
  unfold candidates in In4. cbn [In] in In4.
  rewrite (In4 "audio/mp4;codecs=opus"%string) by tauto.
  rewrite (In4 "audio/ogg;codecs=opus"%string) by tauto.
  rewrite (In4 "audio/webm;codecs=opus"%string) by tauto.
  rewrite (In4 "audio/webm"%string) by tauto.
  reflexivity.
Qed.

(** Downloading as WAV, when the renderer accepts the settings: the file is
    a WAV blob of [44 + croppedLength * channels * 2] bytes, named after the
    uploaded file with its last extension replaced by "-edited.wav"; the
    recorder's host is never consulted. *)
Theorem handleDownload_wav (fileName : string) (b : AudioBuffer)
  (s : AudioEditSettings) (gain : Timeline)
  (Hstart : 0 <= cropStart s) (Hcrop : cropStart s <= cropEnd s)
  (Hlen : (0 < croppedLength b s)%Z)
  (Hgain : scheduleGain b s = Ok gain) :
  exists blob,
    handleDownload contextSupports host recording interpolate fileName b s wav
    = inr (blob, (nameWithoutExt fileName ++ "-edited.wav")%string) /\
    blobType blob = "audio/wav"%string /\
    Z.of_nat (List.length (blobBytes blob))
    = (44 + croppedLength b s * Z.of_nat (numberOfChannels b) * 2)%Z.
Proof.
  unfold handleDownload.
  rewrite (processAudio_nonempty interpolate b s Hlen), Hgain, bind_Ok.
  rewrite start_Ok by lra. rewrite bind_Ok.
  unfold exportAudio. rewrite audioBufferToWav_bytes.
  eexists. split; [reflexivity |]. cbn [blobType blobBytes].
  split; [reflexivity |].
  rewrite length_app, length_wavHeader, length_interleavedSamples.
  destruct (startRendering_dimensions interpolate b
              (mkPlayback (cropStart s) (cropEnd s - cropStart s)) gain
              (Z.to_nat (croppedLength b s))) as (H1 & H2 & _).
  rewrite H1, H2. lia.
Qed.

End ExportFacts.

Lemma exportAudio_opus_extension_witness :
  let host := String.eqb "audio/ogg;codecs=opus" in
  host "audio/ogg;codecs=opus"%string = true /\
  "ogg"%string = (if host "audio/mp4;codecs=opus" then "m4a"
                  else if host "audio/ogg;codecs=opus" then "ogg"
                  else "webm")%string.
Proof.
  cbv zeta.
  destruct (exportAudio_opus_extension (fun _ => true)
              (String.eqb "audio/ogg;codecs=opus") (fun _ _ => inr [79; 103]%Z)
              fourOnes (mkBlob [79; 103]%Z "audio/ogg;codecs=opus") "ogg")
    as (_ & H1 & H2).
  - reflexivity.
  - split; [exact H1 | exact H2].
Defined.

Lemma exportAudio_opus_unsupported_witness :
  exportAudio (fun _ => true) (fun _ => false) (fun _ _ => inr []) fourOnes
              opus
  = inl (Raised (Platform NotSupportedError)).
Proof.
  apply exportAudio_opus_unsupported. intros c _. reflexivity.
Defined.

Lemma handleDownload_wav_witness :
  exists blob,
    handleDownload (fun _ => false) (fun _ => false)
                   (fun _ _ => inl MediaRecorderError) holdFrame
                   "take.one.mp3" fourOnes plainCrop wav
    = inr (blob, "take.one-edited.wav"%string) /\
    blobType blob = "audio/wav"%string /\
    Z.of_nat (List.length (blobBytes blob))
    = (44 + croppedLength fourOnes plainCrop * 1 * 2)%Z.
Proof.
  apply (handleDownload_wav (fun _ => false) (fun _ => false)
           (fun _ _ => inl MediaRecorderError) holdFrame
           "take.one.mp3" fourOnes plainCrop [SetValue 1 0]).
  - cbn; lra.
  - cbn; lra.
  - rewrite croppedLength_plainCrop. lia.
  - apply scheduleGain_no_fades; reflexivity.
Defined.

(** ** The name of the download *)

Lemma dotFree_app_dot (s ext : string) :
  dotFree (s ++ String "." ext) = false.
Proof.
  induction s as [| c s IH]; cbn [append dotFree].
  - reflexivity.
  - rewrite IH. apply andb_false_r.
Qed.

Lemma isExtension_inner_dot (c : ascii) (s ext : string) :
  isExtension (String c (s ++ String "." ext)) = false.
Proof.
  unfold isExtension. rewrite dotFree_app_dot.
  destruct (s ++ String "." ext)%string; apply andb_false_r.
Qed.

(** The name of the download drops the last extension of the uploaded
    file's name, and only that: a name [stem.ext], whose [ext] is not empty
    and has no dot, gives [stem], whatever dots [stem] has; a name without a
    dot, or ending in one, is kept whole. *)
Theorem nameWithoutExt_last_extension (stem ext : string)
  (Hext : ext <> EmptyString) (Hfree : dotFree ext = true) :
  nameWithoutExt (stem ++ "." ++ ext) = stem /\
  nameWithoutExt ext = ext /\
  nameWithoutExt (stem ++ ".") = (stem ++ ".")%string.
Proof.
  split; [| split].
  - induction stem as [| c stem IH]; cbn [append].
    + destruct ext as [| e ext]; [contradiction |].
      unfold nameWithoutExt, isExtension, isDot. cbn [Ascii.eqb].
      cbn [append] in *. rewrite Hfree. reflexivity.
    + cbn [nameWithoutExt]. rewrite isExtension_inner_dot.
      cbn [append] in IH. rewrite IH. reflexivity.
  - clear Hext. induction ext as [| e ext IH]; [reflexivity |].
    cbn [dotFree] in Hfree. apply andb_prop in Hfree as [He Hfree].
    cbn [nameWithoutExt]. unfold isExtension.
    apply negb_true_iff in He. rewrite He. cbn [andb].
    rewrite (IH Hfree). reflexivity.
  - clear. induction stem as [| c stem IH]; [reflexivity |].
    cbn [append nameWithoutExt].
    rewrite (isExtension_inner_dot c stem EmptyString).
    cbn [append] in IH. rewrite IH. reflexivity.
Qed.

Lemma nameWithoutExt_last_extension_witness :
  nameWithoutExt "my.take.ogg" = "my.take"%string.
Proof.
  apply (nameWithoutExt_last_extension "my.take" "ogg").
  - discriminate.
  - reflexivity.
Defined.

(** ** Time display *)

(** Up to a minute, in hundredths: the padded [toFixed(2)] digits are the
    five characters of the clock. *)
Lemma hundredths_clock (n : Z) :
  (0 <= n <= 6000)%Z -> padStart 5 "0" (hundredths n) = clock n.
Proof.
  intros Hn.
  assert (T : forallb (fun k => String.eqb
                                  (padStart 5 "0" (hundredths (Z.of_nat k)))
                                  (clock (Z.of_nat k)))
                      (seq 0 (Z.to_nat 6001)) = true)
    by (vm_compute; reflexivity).
  rewrite forallb_forall in T.
  specialize (T (Z.to_nat n)). rewrite Z2Nat.id in T by lia.
  apply String.eqb_eq. apply T. apply in_seq. lia.
Qed.

Lemma formatTime_nonneg (seconds : R) :
  0 <= seconds ->
  let mins := floor (seconds / 60) in
  let n := floor ((seconds - 60 * IZR mins) * 100 + / 2) in
  (0 <= mins)%Z /\ (0 <= n <= 6000)%Z /\
  formatTime seconds = (integerToString mins ++ ":" ++ clock n)%string.
Proof.
  intros Hs. cbv zeta.
  assert (Hq : 0 <= seconds / 60) by (apply Rmult_le_pos; lra).
  destruct (floor_bounds (seconds / 60)) as [M1 M2].
  set (mins := floor (seconds / 60)) in *.
  assert (S1 : 0 <= seconds - 60 * IZR mins < 60) by lra.
  set (secs := seconds - 60 * IZR mins) in *.
  assert (Hm : (0 <= mins)%Z).
  { pose proof (floor_le 0 (seconds / 60) Hq) as H.
    rewrite floor_IZR in H. exact H. }
  assert (Hn : (0 <= floor (secs * 100 + / 2) <= 6000)%Z).
  { split.
    - assert (H : 0 <= secs * 100 + / 2) by lra.
      apply floor_le in H. rewrite floor_IZR in H. exact H.
    - destruct (floor_bounds (secs * 100 + / 2)) as [F1 _].
      apply Z.lt_succ_r. apply lt_IZR. rewrite succ_IZR. lra. }
  split; [exact Hm |]. split; [exact Hn |].
  unfold formatTime, remainder. cbv zeta.
  rewrite trunc_nonneg by exact Hq. fold mins. fold secs.
  unfold toFixed2. cbv zeta.
  destruct (Rlt_dec secs 0) as [N | _]; [lra |].
  cbn [append]. rewrite hundredths_clock by exact Hn. reflexivity.
Qed.

(** A time that is not negative is shown as the whole minutes, a colon, and
    exactly five characters "SS.CC": the rest of the division by 60 rounded
    to hundredths, between 00.00 and 60.00. *)
Theorem formatTime_shape (seconds : R) (Hs : 0 <= seconds) :
  exists (mins n : Z),
    mins = floor (seconds / 60) /\ (0 <= mins)%Z /\
    n = floor ((seconds - 60 * IZR mins) * 100 + / 2) /\
    (0 <= n <= 6000)%Z /\
    formatTime seconds = (integerToString mins ++ ":" ++ clock n)%string /\
    String.length (clock n) = 5%nat.
Proof.
  destruct (formatTime_nonneg seconds Hs) as (Hm & Hn & E).
  eexists. eexists. split; [reflexivity |]. split; [exact Hm |].
  split; [reflexivity |]. split; [exact Hn |]. split; [exact E |].
  reflexivity.
Qed.

Lemma formatTime_shape_witness :
  exists (mins n : Z),
    mins = floor (125 / 60) /\ (0 <= mins)%Z /\
    n = floor ((125 - 60 * IZR mins) * 100 + / 2) /\
    (0 <= n <= 6000)%Z /\
    formatTime 125 = (integerToString mins ++ ":" ++ clock n)%string /\
    String.length (clock n) = 5%nat.
Proof. apply (formatTime_shape 125). lra. Defined.

(** The seconds are rounded after the minutes are taken: in the last five
    thousandths of a minute the display reads "M:60.00", not the next
    minute. *)
Theorem formatTime_sixty (m : Z) (seconds : R)
  (Hm : (0 <= m)%Z)
  (Hlate : IZR m * 60 + 59.995 <= seconds < IZR m * 60 + 60) :
  formatTime seconds = (integerToString m ++ ":60.00")%string.
Proof.
  assert (M : 0 <= IZR m) by (apply IZR_le; exact Hm).
  assert (Hs : 0 <= seconds) by lra.
  destruct (formatTime_nonneg seconds Hs) as (_ & _ & E).
  rewrite E.
  assert (Em : floor (seconds / 60) = m) by (apply floor_unique; lra).
  rewrite Em.
  assert (En : floor ((seconds - 60 * IZR m) * 100 + / 2) = 6000%Z)
    by (apply floor_unique; lra).
  rewrite En. reflexivity.
Qed.

Lemma formatTime_sixty_witness : formatTime 59.999 = "0:60.00"%string.
Proof. apply (formatTime_sixty 0 59.999); [lia | lra]. Defined.

(** ** The crop sliders *)

Lemma onChange_cropInvariant (dur : R) (s : AudioEditSettings)
  (e : ControlEvent) :
  offered dur e -> cropInvariant dur s -> cropInvariant dur (onChange s e).
Proof.
  unfold cropInvariant. intros He (H1 & H2).
  destruct e as [val | val | val | u | u];
    cbn [onChange offered] in *; unfold cropSliderValue in *.
  - destruct (Rlt_dec val (cropEnd s)) as [L | L];
      unfold updateSetting; cbn [cropStart cropEnd]; lra.
  - destruct (Rgt_dec val (cropStart s)) as [L | L];
      unfold updateSetting; unfold Rgt in *; cbn [cropStart cropEnd]; lra.
  - unfold updateSetting. cbn [cropStart cropEnd]. lra.
  - unfold updateFadeIn. cbn [cropStart cropEnd]. lra.
  - unfold updateFadeOut. cbn [cropStart cropEnd]. lra.
Qed.

Lemma fold_onChange_cropInvariant (dur : R) (events : list ControlEvent) :
  Forall (offered dur) events ->
  forall s, cropInvariant dur s ->
            cropInvariant dur (fold_left onChange events s).
Proof.
  induction 1 as [| e events He _ IH]; intros s Hs; cbn [fold_left].
  - exact Hs.
  - apply IH. apply onChange_cropInvariant; assumption.
Qed.

Section CropSliders.

Variable interpolate : list R -> R -> R.

(** Whatever the user does to the controls, starting from the default
    settings for a positive duration, the crop stays an ordered region
    [0 <= cropStart < cropEnd <= duration]; so the renderer's
    [source.start] is never refused, and a render can only fail with
    EmptyRegion or with what the gain automation raises. *)
Theorem crop_sliders_keep_order (dur : R) (events : list ControlEvent)
  (Hdur : 0 < dur)
  (Hoffered : Forall (offered dur) events) :
  let s := fold_left onChange events (getDefaultSettings dur) in
  0 <= cropStart s < cropEnd s /\ cropEnd s <= dur /\
  start 0 (cropStart s) (cropEnd s - cropStart s)
  = Ok (mkPlayback (cropStart s) (cropEnd s - cropStart s)) /\
  forall (b : AudioBuffer) (e : PlatformError),
    processAudio interpolate b s = Err (Platform e) ->
    scheduleGain b s = Err (Platform e).
Proof.
  cbv zeta.
  assert (I0 : cropInvariant dur (getDefaultSettings dur)).
  { unfold cropInvariant, getDefaultSettings. cbn [cropStart cropEnd]. lra. }
  pose proof (fold_onChange_cropInvariant _ events Hoffered _ I0) as I.
  set (s := fold_left onChange events (getDefaultSettings dur)) in *.
  destruct I as (H1 & H2).
  assert (S : start 0 (cropStart s) (cropEnd s - cropStart s)
              = Ok (mkPlayback (cropStart s) (cropEnd s - cropStart s)))
    by (apply start_Ok; lra).
  split; [exact H1 |]. split; [exact H2 |]. split; [exact S |].
  intros b e E.
  destruct (Z.leb_spec (croppedLength b s) 0) as [H | H].
  - rewrite (processAudio_empty interpolate b s H) in E. discriminate E.
  - rewrite (processAudio_nonempty interpolate b s H), S in E.
    destruct (scheduleGain b s) as [g | e1]; cbn [bind] in E.
    + discriminate E.
    + injection E as ->. reflexivity.
Qed.

End CropSliders.

Lemma crop_sliders_keep_order_witness :
  let s := fold_left onChange cropSession (getDefaultSettings 0.03) in
  0 <= cropStart s < cropEnd s /\ cropEnd s <= 0.03.
Proof.
  cbv zeta.
  destruct (crop_sliders_keep_order holdFrame 0.03 cropSession)
    as (H1 & H2 & _).
  - lra.
  - unfold cropSession. repeat constructor; lra.
  - split; [exact H1 | exact H2].
Defined.

(** ** The sampled curves, mirrored *)

(** The sampled fade out is the sampled fade in played backwards.  For the
    S-curve the two add up to the volume at every step (equal gain); for the
    logarithmic curve their squares add up to the square of the volume
    (equal power). *)
Theorem sampled_fade_curves_mirror (c : EaseCurve) (vol : R) (k : nat)
  (Hk : (k < steps)%nat) :
  nth k (fadeOutCurveValues c vol) 0
  = nth (steps - 1 - k) (fadeInCurveValues c vol) 0 /\
  nth k (fadeInCurveValues sCurve vol) 0
  + nth k (fadeOutCurveValues sCurve vol) 0 = vol /\
  (nth k (fadeInCurveValues logarithmic vol) 0) ^ 2
  + (nth k (fadeOutCurveValues logarithmic vol) 0) ^ 2 = vol ^ 2.
Proof.
  change steps with 100%nat in *.
  assert (Hk' : (100 - 1 - k < 100)%nat) by lia.
  rewrite !nth_fadeInCurveValues, !nth_fadeOutCurveValues by assumption.
  assert (K0 : 0 <= INR k) by apply pos_INR.
  assert (K1 : INR k <= 99).
  { assert (H : INR k <= INR 99) by (apply le_INR; lia).
    rewrite (INR_IZR_INZ 99) in H. exact H. }
  split; [| split].
  - replace (100 - 1 - k)%nat with (99 - k)%nat by lia.
    rewrite minus_INR by lia. rewrite (INR_IZR_INZ 99).
    do 2 f_equal. change (IZR (Z.of_nat 99)) with 99. field.
  - cbn [applyEaseCurve]. field.
  - cbn [applyEaseCurve].
    assert (T0 : 0 <= INR k / 99) by (apply Rmult_le_pos; lra).
    assert (T1 : 0 <= 1 - INR k / 99) by lra.
    pose proof (sqrt_sqrt _ T0) as S0. pose proof (sqrt_sqrt _ T1) as S1.
    set (a := sqrt (INR k / 99)) in *. set (d := sqrt (1 - INR k / 99)) in *.
    replace ((a * vol) ^ 2 + (d * vol) ^ 2)
      with ((a * a + d * d) * vol ^ 2) by ring.
    rewrite S0, S1. ring.
Qed.

Lemma sampled_fade_curves_mirror_witness :
  nth 33 (fadeInCurveValues sCurve 0.5) 0
  + nth 33 (fadeOutCurveValues sCurve 0.5) 0 = 0.5.
Proof.
  apply (sampled_fade_curves_mirror sCurve 0.5 33). unfold steps. lia.
Defined.
